(** * Task Master front end: the view-state controller of [App]

    A shallow embedding of the state, the four API handlers
    ([fetchTasks], [addTask], [toggleTask], [deleteTask]) and the derived
    values ([filteredTasks], [stats], [completionPercentage]) of the React
    component [App], followed by the properties its specification states.

    Conventions of the embedding.
    - A JavaScript string is a [string] holding its UTF-8 bytes.
      [trim] removes the WhiteSpace and LineTerminator code points of
      ECMA-262; [toLowerCase] is the engine's mapping, taken as a
      parameter with its behaviour on ASCII text.
    - A task record is typed as the REST contract has it; the body of a
      response is [None] when [response.json()] rejects.
    - A handler is a computation in the monad [M]: it emits the calls it
      makes (state setters, [fetch], [console.error]) in program order and
      ends normally or with a thrown error.  A handler reads the cells of
      the render it was created in; the state after the handler is that
      state with the emitted setter calls applied in order.
    - A JavaScript number is a binary64 [spec_float]; a count is a [nat]
      until it enters an arithmetic expression. *)

From Stdlib Require Import ZArith NArith String Ascii List Bool Lia.
From Stdlib Require Import Floats.SpecFloat.
From stdpp Require Import base tactics option list.

Open Scope string_scope.
Open Scope list_scope.

(* ================================================================== *)
(** ** Strings *)

Module Js.

(** The UTF-8 bytes of a code point. *)
Definition utf8 (cp : N) : string :=
  let byte (n : N) := ascii_of_N n in
  if (cp <? 0x80)%N then String (byte cp) ""
  else if (cp <? 0x800)%N then
    String (byte (0xC0 + cp / 0x40)%N) (String (byte (0x80 + cp mod 0x40)%N) "")
  else if (cp <? 0x10000)%N then
    String (byte (0xE0 + cp / 0x1000)%N)
      (String (byte (0x80 + (cp / 0x40) mod 0x40)%N)
         (String (byte (0x80 + cp mod 0x40)%N) ""))
  else
    String (byte (0xF0 + cp / 0x40000)%N)
      (String (byte (0x80 + (cp / 0x1000) mod 0x40)%N)
         (String (byte (0x80 + (cp / 0x40) mod 0x40)%N)
            (String (byte (0x80 + cp mod 0x40)%N) ""))).

(** The code points [String.prototype.trim] removes: WhiteSpace (TAB, VT,
    FF, ZWNBSP and the space separators) and LineTerminator (LF, CR, LS,
    PS) of ECMA-262. *)
Definition whiteSpaceCodePoints : list N :=
  [ 0x0009; 0x000A; 0x000B; 0x000C; 0x000D; 0x0020; 0x00A0; 0x1680;
    0x2000; 0x2001; 0x2002; 0x2003; 0x2004; 0x2005; 0x2006; 0x2007;
    0x2008; 0x2009; 0x200A; 0x2028; 0x2029; 0x202F; 0x205F; 0x3000;
    0xFEFF ]%N.

Definition whiteSpace : list string := map utf8 whiteSpaceCodePoints.

(** [s] without its prefix [p], when it starts with [p]. *)
Fixpoint stripPrefix (p s : string) : option string :=
  match p, s with
  | EmptyString, _ => Some s
  | String _ _, EmptyString => None
  | String a p', String b s' => if Ascii.eqb a b then stripPrefix p' s' else None
  end.

Fixpoint stripAny (prefixes : list string) (s : string) : option string :=
  match prefixes with
  | [] => None
  | p :: rest =>
      match stripPrefix p s with
      | Some r => Some r
      | None => stripAny rest s
      end
  end.

(** [s] without the white space character it starts with, if any. *)
Definition stripWhiteSpace (s : string) : option string := stripAny whiteSpace s.

(** Each round removes one leading white space character, so [n] rounds
    are enough for a string of [n] bytes. *)
Fixpoint trimStartRounds (n : nat) (s : string) : string :=
  match n with
  | O => s
  | S n' =>
      match stripWhiteSpace s with
      | Some rest => trimStartRounds n' rest
      | None => s
      end
  end.

Definition trimStart (s : string) : string := trimStartRounds (String.length s) s.

(** Truthiness of a string: the empty string is the only falsy one. *)
Definition truthy (s : string) : bool :=
  match s with
  | EmptyString => false
  | String _ _ => true
  end.

(** The string is cut at the first position from which only white space
    follows. *)
Fixpoint trimEnd (s : string) : string :=
  match s with
  | EmptyString => EmptyString
  | String c s' => if truthy (trimStart s) then String c (trimEnd s') else EmptyString
  end.

Definition trim (s : string) : string := trimEnd (trimStart s).

(** [s.startsWith(p)]. *)
Fixpoint startsWith (s p : string) : bool :=
  match p, s with
  | EmptyString, _ => true
  | String _ _, EmptyString => false
  | String a p', String b s' => Ascii.eqb a b && startsWith s' p'
  end.

(** [s.includes(p)]: [p] occurs in [s] at some position. *)
Fixpoint includes (s p : string) : bool :=
  startsWith s p ||
  match s with
  | EmptyString => false
  | String _ s' => includes s' p
  end.

(** The string has ASCII characters only. *)
Fixpoint isAscii (s : string) : bool :=
  match s with
  | EmptyString => true
  | String c s' => (nat_of_ascii c <? 128)%nat && isAscii s'
  end.

(** Lower case on ASCII: [A]-[Z] go to [a]-[z], every other byte stays. *)
Definition lowerChar (c : ascii) : ascii :=
  let n := nat_of_ascii c in
  if (65 <=? n)%nat && (n <=? 90)%nat then ascii_of_nat (n + 32) else c.

Fixpoint asciiLowerCase (s : string) : string :=
  match s with
  | EmptyString => EmptyString
  | String c s' => String (lowerChar c) (asciiLowerCase s')
  end.

End Js.

(* ================================================================== *)
(** ** Data model *)

Module Task.
(** The JSON shape of a task record: [{id, title, description, priority,
    completed, createdAt}]. *)
Record t : Type := mk {
  id : Z;
  title : string;
  description : string;
  priority : string;
  completed : bool;
  createdAt : string
}.
End Task.

(** The [useState] cells of [App]. *)
Record State : Type := mkState {
  tasks : list Task.t;
  title : string;
  description : string;
  priority : string;
  loading : bool;
  error : string;
  searchQuery : string;
  filterStatus : string;
  currentTheme : string;
  showStats : bool
}.

(** Initial values of the cells. *)
Definition initialState : State :=
  {| tasks := []; title := ""; description := ""; priority := "medium";
     loading := false; error := "";
     searchQuery := ""; filterStatus := "all";
     currentTheme := "classic"; showStats := true |}.

(** The four requests the component sends to [API_URL]. *)
Inductive Request : Type :=
| GET_tasks
| POST_tasks (title description priority : string)
| PUT_task (id : Z)
| DELETE_task (id : Z).

(** What [await fetch(...)] produces: a rejected promise, or a response
    with its [ok] flag and its parsed body. *)
Inductive Response (A : Type) : Type :=
| NetworkError
| HttpResponse (ok : bool) (body : option A).
Arguments NetworkError {A}.
Arguments HttpResponse {A} ok body.

(** Values that reach a [catch] clause. *)
Inductive JsError : Type :=
| FetchRejected
| JsonRejected
| Error (message : string).

(** Calls a handler makes, in program order. *)
Inductive Effect : Type :=
| PreventDefault
| SetTasks (v : list Task.t)
| SetTitle (v : string)
| SetDescription (v : string)
| SetPriority (v : string)
| SetLoading (v : bool)
| SetError (v : string)
| Fetch (r : Request)
| ConsoleError (label : string) (err : JsError).

(* ================================================================== *)
(** ** The handler monad: a trace of effects and a normal or thrown end *)

Definition M (A : Type) : Type := (list Effect * (JsError + A))%type.

Definition ret {A} (a : A) : M A := ([], inr a).

Definition bind {A B} (m : M A) (k : A -> M B) : M B :=
  match m with
  | (t1, inl e) => (t1, inl e)
  | (t1, inr a) => let '(t2, r) := k a in (t1 ++ t2, r)
  end.

#[global] Instance M_ret : MRet M := @ret.
#[global] Instance M_bind : MBind M := fun A B k m => bind m k.

Definition emit (e : Effect) : M unit := ([e], inr tt).
Definition throw {A} (e : JsError) : M A := ([], inl e).

(** [try { body } catch (err) { handler err }]. *)
Definition tryCatch {A} (body : M A) (handler : JsError -> M A) : M A :=
  match body with
  | (t1, inr a) => (t1, inr a)
  | (t1, inl e) => let '(t2, r) := handler e in (t1 ++ t2, r)
  end.

(** [try { body } catch (err) { handler err } finally { final }]. *)
Definition tryCatchFinally {A} (body : M A) (handler : JsError -> M A)
    (final : M unit) : M A :=
  match tryCatch body handler, final with
  | (t1, r), (t2, inr _) => (t1 ++ t2, r)
  | (t1, _), (t2, inl e) => (t1 ++ t2, inl e)
  end.

(** [await fetch(request)]. *)
Definition fetch {A} (request : Request) (response : Response A)
  : M (bool * option A) :=
  emit (Fetch request);;
  match response with
  | NetworkError => throw FetchRejected
  | HttpResponse ok body => mret (ok, body)
  end.

(** [await response.json()]. *)
Definition json {A} (response : bool * option A) : M A :=
  match snd response with
  | Some v => mret v
  | None => throw JsonRejected
  end.

Definition trace {A} (m : M A) : list Effect := fst m.

(** A setter call replaces the value of its cell; the other calls leave
    the cells alone. *)
Definition applyEffect (s : State) (e : Effect) : State :=
  match e with
  | SetTasks v => mkState v (title s) (description s) (priority s) (loading s)
                    (error s) (searchQuery s) (filterStatus s) (currentTheme s) (showStats s)
  | SetTitle v => mkState (tasks s) v (description s) (priority s) (loading s)
                    (error s) (searchQuery s) (filterStatus s) (currentTheme s) (showStats s)
  | SetDescription v => mkState (tasks s) (title s) v (priority s) (loading s)
                    (error s) (searchQuery s) (filterStatus s) (currentTheme s) (showStats s)
  | SetPriority v => mkState (tasks s) (title s) (description s) v (loading s)
                    (error s) (searchQuery s) (filterStatus s) (currentTheme s) (showStats s)
  | SetLoading v => mkState (tasks s) (title s) (description s) (priority s) v
                    (error s) (searchQuery s) (filterStatus s) (currentTheme s) (showStats s)
  | SetError v => mkState (tasks s) (title s) (description s) (priority s) (loading s)
                    v (searchQuery s) (filterStatus s) (currentTheme s) (showStats s)
  | PreventDefault | Fetch _ | ConsoleError _ _ => s
  end.

Definition run (s : State) (t : list Effect) : State := fold_left applyEffect t s.

(** The requests of a trace. *)
Definition requests (t : list Effect) : list Request :=
  omap (fun e => match e with Fetch r => Some r | _ => None end) t.

(* ================================================================== *)
(** ** API functions *)

Definition fetchTasks (response : Response (list Task.t)) : M unit :=
  tryCatchFinally
    (emit (SetLoading true);;
     response ← fetch GET_tasks response;
     if negb (fst response) then throw (Error "Failed to fetch tasks") else
     data ← json response;
     emit (SetTasks data);;
     emit (SetError ""))
    (fun err =>
       emit (SetError "⚠️ Backend not running. Start the server!");;
       emit (ConsoleError "Error fetching tasks:" err))
    (emit (SetLoading false)).

(** [addTask] closes over the cells [title], [description], [priority] and
    [tasks] of the render it belongs to: the snapshot [s]. *)
Definition addTask (s : State) (response : Response Task.t) : M unit :=
  emit PreventDefault;;
  if negb (Js.truthy (Js.trim (title s))) || negb (Js.truthy (Js.trim (description s)))
  then emit (SetError "⚠️ Please fill in both fields")
  else
    tryCatchFinally
      (emit (SetLoading true);;
       response ← fetch (POST_tasks (title s) (description s) (priority s)) response;
       if negb (fst response) then throw (Error "Failed to add task") else
       newTask ← json response;
       emit (SetTasks (newTask :: tasks s));;
       emit (SetTitle "");;
       emit (SetDescription "");;
       emit (SetPriority "medium");;
       emit (SetError ""))
      (fun err =>
         emit (SetError "❌ Failed to add task");;
         emit (ConsoleError "Error adding task:" err))
      (emit (SetLoading false)).

Definition toggleTask (s : State) (id : Z) (response : Response Task.t) : M unit :=
  tryCatch
    (response ← fetch (PUT_task id) response;
     if negb (fst response) then throw (Error "Failed to update task") else
     updatedTask ← json response;
     emit (SetTasks (map (fun task => if (Task.id task =? id)%Z then updatedTask else task)
                         (tasks s))))
    (fun err =>
       emit (SetError "❌ Failed to update task");;
       emit (ConsoleError "Error updating task:" err)).

Definition deleteTask {A} (s : State) (id : Z) (response : Response A) : M unit :=
  tryCatch
    (response ← fetch (DELETE_task id) response;
     if negb (fst response) then throw (Error "Failed to delete task") else
     emit (SetTasks (List.filter (fun task => negb (Task.id task =? id)%Z) (tasks s)));;
     emit (SetError ""))
    (fun err =>
       emit (SetError "❌ Failed to delete task");;
       emit (ConsoleError "Error updating task:" err)).

(** A handler run to completion from the render whose cells are [s]. *)
Definition load (s : State) (response : Response (list Task.t)) : State :=
  run s (trace (fetchTasks response)).
Definition create (s : State) (response : Response Task.t) : State :=
  run s (trace (addTask s response)).
Definition toggle (s : State) (id : Z) (response : Response Task.t) : State :=
  run s (trace (toggleTask s id response)).
Definition delete {A} (s : State) (id : Z) (response : Response A) : State :=
  run s (trace (deleteTask s id response)).

(** The response has [ok] set: the request succeeded for a handler that
    does not read the body ([deleteTask]). *)
Definition accepted {A} (response : Response A) : bool :=
  match response with
  | HttpResponse true _ => true
  | _ => false
  end.

(* ================================================================== *)
(** ** Helper functions: derived values of a render *)

Module Stats.
Record t : Type := mk {
  total : nat;
  completed : nat;
  active : nat;
  highPriority : nat
}.
End Stats.

Definition stats (s : State) : Stats.t :=
  {| Stats.total := length (tasks s);
     Stats.completed := length (List.filter (fun t => Task.completed t) (tasks s));
     Stats.active := length (List.filter (fun t => negb (Task.completed t)) (tasks s));
     Stats.highPriority :=
       length (List.filter
                 (fun t => (Task.priority t =? "high")%string && negb (Task.completed t))
                 (tasks s)) |}.

(** *** Numbers

    A JavaScript number is an IEEE 754 binary64 value: [spec_float] with a
    53-bit significand and exponents below 1024, and [/] and [*] are the
    correctly rounded operations [SFdiv] and [SFmul] at that format. *)
Module Number.

Definition prec : Z := 53.
Definition emax : Z := 1024.

(** The number an array length or an integer literal denotes. *)
Definition ofZ (z : Z) : spec_float := binary_normalize prec emax z 0 false.
Definition ofNat (n : nat) : spec_float := ofZ (Z.of_nat n).

Definition div (x y : spec_float) : spec_float := SFdiv prec emax x y.
Definition mul (x y : spec_float) : spec_float := SFmul prec emax x y.

(** The integer [floor (m * 2^e + 1/2)], for a signed significand [m]. *)
Definition roundHalfUp (m e : Z) : Z :=
  match e with
  | Zneg p => (2 * m + 2 ^ Zpos p) / 2 ^ (Zpos p + 1)
  | _ => m * 2 ^ e
  end.

(** [Math.round]: the integer nearest to [x], ties going up; zeros,
    infinities and NaN are returned as they are, and a zero result keeps
    the sign of [x]. *)
Definition round (x : spec_float) : spec_float :=
  match x with
  | S754_finite s m e =>
      binary_normalize prec emax (roundHalfUp (cond_Zopp s (Zpos m)) e) 0 s
  | _ => x
  end.

End Number.

(* ================================================================== *)
(** ** The engine's case mapping

    [String.prototype.toLowerCase] is the case mapping of the engine: the
    Unicode lower-case mapping with its context rule for the final sigma.
    The component is embedded over any function [toLowerCase] that has
    the two properties of that mapping stated below; nothing else is
    assumed of it. *)
Section Engine.

Variable toLowerCase : string -> string.

(** On ASCII text the mapping turns [A]-[Z] into [a]-[z] and keeps every
    other character. *)
Hypothesis toLowerCase_ascii :
  forall s, Js.isAscii s = true -> toLowerCase s = Js.asciiLowerCase s.

(** Lower-cased text is its own lower-cased form. *)
Hypothesis toLowerCase_idempotent :
  forall s, toLowerCase (toLowerCase s) = toLowerCase s.

(** *** The visible subset *)

Definition matchesSearch (s : State) (task : Task.t) : bool :=
  Js.includes (toLowerCase (Task.title task)) (toLowerCase (searchQuery s)) ||
  Js.includes (toLowerCase (Task.description task)) (toLowerCase (searchQuery s)).

Definition matchesFilter (s : State) (task : Task.t) : bool :=
  (filterStatus s =? "all")%string ||
  ((filterStatus s =? "active")%string && negb (Task.completed task)) ||
  ((filterStatus s =? "completed")%string && Task.completed task).

Definition filteredTasks (s : State) : list Task.t :=
  List.filter (fun task => matchesSearch s task && matchesFilter s task) (tasks s).


Definition completionPercentage (s : State) : spec_float :=
  if (0 <? Stats.total (stats s))%nat
  then Number.round
         (Number.mul
            (Number.div (Number.ofNat (Stats.completed (stats s)))
                        (Number.ofNat (Stats.total (stats s))))
            (Number.ofNat 100))
  else Number.ofNat 0.

(** A state whose collection has [c] completed and [a] active records. *)
Definition sample (c a : nat) : State :=
  mkState (repeat (Task.mk 0 "t" "d" "low" true "") c ++
           repeat (Task.mk 0 "t" "d" "low" false "") a)
          "" "" "medium" false "" "" "all" "classic" true.

(** The body a handler obtains from [response.json()] after the [ok]
    check: [None] when [fetch] rejects, [ok] is false or the body does not
    parse. *)
Definition parsed {A} (response : Response A) : option A :=
  match response with
  | HttpResponse true body => body
  | _ => None
  end.

(** The string is made of white space characters only: the
    specification's side of the blank check. *)
Inductive Blank : string -> Prop :=
| Blank_empty : Blank ""
| Blank_more (w s : string) : In w Js.whiteSpace -> Blank s -> Blank (w ++ s).

(** The text [p] occurs in [s]: the specification's side of [includes]. *)
Definition substring (p s : string) : Prop :=
  exists pre post : string, s = (pre ++ p ++ post)%string.

(** The visible subset in the specification's words: the query, lower
    cased, occurs in the lower-cased title or description, and the
    completed flag agrees with the status. *)
Definition statusAdmits (status : string) (task : Task.t) : Prop :=
  status = "all" \/
  (status = "active" /\ Task.completed task = false) \/
  (status = "completed" /\ Task.completed task = true).

Definition visible_spec (query status : string) (task : Task.t) : Prop :=
  (substring (toLowerCase query) (toLowerCase (Task.title task)) \/
   substring (toLowerCase query) (toLowerCase (Task.description task))) /\
  statusAdmits status task.

(** *** Invariants of the rounding steps

    The predicates below say what the steps of [binary_round_aux] keep. *)

(** Some bit was shifted out of a record, or it started inexact. *)
Definition inexact (mrs : shr_record) : bool := shr_r mrs || shr_s mrs.

(** What [n] right shifts do to a record with a non-negative significand. *)
Definition shifted (n : Z) (a b : shr_record) : Prop :=
  (shr_m b = shr_m a / 2 ^ n /\
   (inexact b = true -> inexact a = true \/ shr_m a mod 2 ^ n <> 0))%Z.

(** A non-negative finite number at most [bound * 2^base]. *)
Definition below (bound base : Z) (x : spec_float) : Prop :=
  match x with
  | S754_zero false => True
  | S754_finite false m e => (base <= e /\ Zpos m * 2 ^ (e - base) <= bound)%Z
  | _ => False
  end.

(** A non-negative finite number at most the integer [K]. *)
Definition atMost (K : Z) (x : spec_float) : Prop :=
  match x with
  | S754_zero false => True
  | S754_finite false m e =>
      if (e <? 0)%Z then (Zpos m <= K * 2 ^ (- e))%Z else (Zpos m * 2 ^ e <= K)%Z
  | _ => False
  end.

(* ================================================================== *)
(** ** The rest of the component: tables, inline handlers, the list view *)

(** An object literal used as a table: its own keys in source order.
    [ownProperty table key] is the value stored under [key], and [None]
    when [key] is not an own key of the object. *)
Fixpoint ownProperty {A} (table : list (string * A)) (key : string) : option A :=
  match table with
  | [] => None
  | (k, v) :: rest => if (k =? key)%string then Some v else ownProperty rest key
  end.

Record Theme : Type := mkTheme {
  name : string;
  primary : string;
  secondary : string
}.

Definition THEMES : list (string * Theme) :=
  [ ("classic", mkTheme "Classic Red" "#ef4444" "#dc2626");
    ("fire", mkTheme "Fire" "#ff0000" "#cc0000");
    ("crimson", mkTheme "Crimson" "#dc143c" "#b31234") ].

(** The effect that applies the theme colours: the custom properties it
    sets on the document element, in order, or [None] when
    [THEMES[currentTheme]] has no own entry to read the colours from. *)
Definition themeEffect (s : State) : option (list (string * string)) :=
  match ownProperty THEMES (currentTheme s) with
  | Some theme => Some [ ("--theme-primary", primary theme);
                         ("--theme-secondary", secondary theme) ]
  | None => None
  end.

Record PriorityStyle : Type := mkPriorityStyle {
  color : string;
  label : string;
  textColor : string;
  borderColor : string
}.

Definition priorityConfig : list (string * PriorityStyle) :=
  [ ("high", mkPriorityStyle "bg-red-500" "🔥 High" "text-red-500" "border-red-500");
    ("medium", mkPriorityStyle "bg-orange-500" "⚡ Medium" "text-orange-500" "border-orange-500");
    ("low", mkPriorityStyle "bg-green-500" "✓ Low" "text-green-500" "border-green-500") ].

(** [priorityConfig[task.priority || 'medium']], the entry a card reads
    its badge from. *)
Definition priorityStyle (task : Task.t) : option PriorityStyle :=
  ownProperty priorityConfig
    (if Js.truthy (Task.priority task) then Task.priority task else "medium").

(** The values of the [<option>]s of the priority selector and the
    labels of the filter buttons. *)
Definition priorityOptions : list string := ["low"; "medium"; "high"].
Definition filterOptions : list string := ["all"; "active"; "completed"].

Definition oneOf (options : list string) (v : string) : bool :=
  existsb (String.eqb v) options.

(** The property names every object inherits from [Object.prototype]. *)
Definition objectPrototypeKeys : list string :=
  [ "constructor"; "hasOwnProperty"; "isPrototypeOf"; "propertyIsEnumerable";
    "toLocaleString"; "toString"; "valueOf"; "__proto__";
    "__defineGetter__"; "__defineSetter__"; "__lookupGetter__"; "__lookupSetter__" ].

(** [table[key]] is [undefined]: [key] is neither an own key of the
    object literal nor a name it inherits.  Reading a property of that
    value throws a [TypeError]; reading one of an inherited value gives
    [undefined] and does not throw. *)
Definition undefinedIn {A} (table : list (string * A)) (key : string) : bool :=
  match ownProperty table key with
  | Some _ => false
  | None => negb (oneOf objectPrototypeKeys key)
  end.

(** A card reads [.color] and [.label] of
    [priorityConfig[task.priority || 'medium']] (and [.borderColor] when
    the record is not completed), so rendering it throws when that value
    is [undefined]. *)
Definition cardThrows (task : Task.t) : bool :=
  undefinedIn priorityConfig
    (if Js.truthy (Task.priority task) then Task.priority task else "medium").

(** The setters the inline handlers call. *)
Definition setSearchQuery (v : string) (s : State) : State :=
  mkState (tasks s) (title s) (description s) (priority s) (loading s) (error s)
          v (filterStatus s) (currentTheme s) (showStats s).
Definition setFilterStatus (v : string) (s : State) : State :=
  mkState (tasks s) (title s) (description s) (priority s) (loading s) (error s)
          (searchQuery s) v (currentTheme s) (showStats s).
Definition setCurrentTheme (v : string) (s : State) : State :=
  mkState (tasks s) (title s) (description s) (priority s) (loading s) (error s)
          (searchQuery s) (filterStatus s) v (showStats s).
Definition setShowStats (v : bool) (s : State) : State :=
  mkState (tasks s) (title s) (description s) (priority s) (loading s) (error s)
          (searchQuery s) (filterStatus s) (currentTheme s) v.

(** The buttons of the theme switcher and of the filter bar, each with
    whether it is drawn as the selected one. *)
Definition themeButtons (s : State) : list (string * bool) :=
  map (fun '(key, theme) => (name theme, (currentTheme s =? key)%string)) THEMES.
Definition filterButtons (s : State) : list (string * bool) :=
  map (fun filter => (filter, (filterStatus s =? filter)%string)) filterOptions.

(** What the task list area shows, or that rendering it throws. *)
Inductive ListView : Type :=
| LoadingTasks
| EmptyList (message : string)
| Cards (visible : list Task.t)
| RenderThrows.

Definition listView (s : State) : ListView :=
  if loading s && (length (tasks s) =? 0)%nat then LoadingTasks
  else if (length (filteredTasks s) =? 0)%nat then
    EmptyList (if Js.truthy (searchQuery s) || negb (filterStatus s =? "all")%string
               then "No tasks match your filters"
               else "No tasks yet. Create your first one above!")
  else if existsb cardThrows (filteredTasks s) then RenderThrows
  else Cards (filteredTasks s).

(** User events, each with the response its request will get.  Events
    are taken one at a time: a handler has finished when the next event
    arrives. *)
Inductive Event : Type :=
| TypeTitle (v : string)
| SelectPriority (v : string)
| TypeDescription (v : string)
| Submit (response : Response Task.t)
| TypeSearch (v : string)
| ClickFilter (filter : string)
| ClickTheme (key : string)
| ClickShowStats
| ClickToggle (id : Z) (response : Response Task.t)
| ClickDelete (id : Z) (response : Response unit).

(** The event can be produced by the rendered page: form controls are
    disabled while loading, a selector offers its options only, a button
    exists per table key, and a card exists per visible task of a list
    area that rendered.  The controls outside the list area are not tied
    to it, so the events allowed here include all those of a page that
    is on screen. *)
Definition enabled (s : State) (ev : Event) : bool :=
  match ev with
  | TypeTitle _ | TypeDescription _ | Submit _ => negb (loading s)
  | SelectPriority v => negb (loading s) && oneOf priorityOptions v
  | TypeSearch _ | ClickShowStats => true
  | ClickFilter filter => oneOf filterOptions filter
  | ClickTheme key => oneOf (map fst THEMES) key
  | ClickToggle id _ | ClickDelete id _ =>
      match listView s with
      | Cards visible => existsb (fun task => (Task.id task =? id)%Z) visible
      | _ => false
      end
  end.

Definition step (s : State) (ev : Event) : State :=
  match ev with
  | TypeTitle v => applyEffect s (SetTitle v)
  | SelectPriority v => applyEffect s (SetPriority v)
  | TypeDescription v => applyEffect s (SetDescription v)
  | Submit response => create s response
  | TypeSearch v => setSearchQuery v s
  | ClickFilter filter => setFilterStatus filter s
  | ClickTheme key => setCurrentTheme key s
  | ClickShowStats => setShowStats (negb (showStats s)) s
  | ClickToggle id response => toggle s id response
  | ClickDelete id response => delete s id response
  end.

(** States the page can be in: after the load on mount, and after any
    enabled event. *)
Inductive Reachable : State -> Prop :=
| reach_mount (response : Response (list Task.t)) :
    Reachable (load initialState response)
| reach_step (s : State) (ev : Event) :
    Reachable s -> enabled s ev = true -> Reachable (step s ev).

(** The record's priority is one a card can be drawn for: empty, a key
    of [priorityConfig], or a name inherited from [Object.prototype]. *)
Definition drawablePriority (task : Task.t) : Prop :=
  Task.priority task = "" \/
  In (Task.priority task) (map fst priorityConfig) \/
  In (Task.priority task) objectPrototypeKeys.

(** The cells that are chosen from fixed options hold one of them, and no
    request is in flight. *)
Definition wellFormed (s : State) : bool :=
  negb (loading s) &&
  oneOf priorityOptions (priority s) &&
  oneOf filterOptions (filterStatus s) &&
  oneOf (map fst THEMES) (currentTheme s).

(** The ways the calls of two handlers started from the same render can
    follow each other: each handler's calls keep their order. *)
Inductive Interleaved : list Effect -> list Effect -> list Effect -> Prop :=
| interleaved_nil : Interleaved [] [] []
| interleaved_left e t1 t2 t :
    Interleaved t1 t2 t -> Interleaved (e :: t1) t2 (e :: t)
| interleaved_right e t1 t2 t :
    Interleaved t1 t2 t -> Interleaved t1 (e :: t2) (e :: t).

(* ================================================================== *)
(** * Properties *)

(** ** Lists: [filter] keeps a greatest sublist *)

Section Filter.
Context {A : Type} (f g : A -> bool).

Lemma filter_sublist (l : list A) : List.filter f l `sublist_of` l.
Proof.
  induction l as [|x l IH]; simpl.
  - constructor.
  - destruct (f x); now constructor.
Qed.

Lemma filter_all_true (l : list A) : Forall (fun x => f x = true) (List.filter f l).
Proof.
  induction l as [|x l IH]; simpl; [constructor|].
  destruct (f x) eqn:E; [constructor|]; assumption.
Qed.

Lemma filter_greatest (l k : list A) :
  k `sublist_of` l -> Forall (fun x => f x = true) k -> k `sublist_of` List.filter f l.
Proof.
  induction 1 as [|x k l Hs IH|x k l Hs IH]; intros Hk; simpl.
  - constructor.
  - inversion Hk as [|? ? Hx Hk']; subst. rewrite Hx. constructor. now apply IH.
  - destruct (f x); [constructor|]; now apply IH.
Qed.

Lemma filter_fixed (l : list A) :
  Forall (fun x => f x = true) l -> List.filter f l = l.
Proof.
  induction 1 as [|x l Hx _ IH]; simpl; [reflexivity|].
  now rewrite Hx, IH.
Qed.

Lemma filter_andb (l : list A) :
  List.filter f (List.filter g l) = List.filter (fun x => g x && f x) l.
Proof.
  induction l as [|x l IH]; simpl; [reflexivity|].
  destruct (g x); simpl; [destruct (f x)|]; now rewrite IH.
Qed.

Lemma filter_length_split (l : list A) :
  length (List.filter (fun x => negb (f x)) l) + length (List.filter f l) = length l.
Proof.
  induction l as [|x l IH]; simpl; [reflexivity|].
  destruct (f x); simpl; lia.
Qed.

Lemma filter_length_mono (l : list A) :
  (forall x, f x = true -> g x = true) ->
  length (List.filter f l) <= length (List.filter g l).
Proof.
  intros Hfg. induction l as [|x l IH]; simpl; [lia|].
  destruct (f x) eqn:Ef.
  - rewrite (Hfg x Ef). simpl. lia.
  - destruct (g x); simpl; lia.
Qed.
End Filter.

(** ** Strings *)

Lemma truthy_true (s : string) : Js.truthy s = true <-> s <> "".
Proof. destruct s; simpl; split; congruence. Qed.

(** The encoder agrees with the bytes of a literal. *)
Example utf8_bytes :
  Js.utf8 0x41 = "A" /\ Js.utf8 0xE9 = "é" /\ Js.utf8 0x20AC = "€" /\
  Js.utf8 0x1F525 = "🔥".
Proof. repeat split. Qed.

(** No-break space, ideographic space and the byte order mark are
    trimmed; the zero width space is not white space. *)
Example trim_unicode :
  Js.trim (Js.utf8 0xA0 ++ " a b " ++ Js.utf8 0x3000 ++ Js.utf8 0xFEFF) = "a b" /\
  Js.trim (Js.utf8 0x200B) = Js.utf8 0x200B.
Proof. split; vm_compute; reflexivity. Qed.

Lemma stripPrefix_spec (p s r : string) :
  Js.stripPrefix p s = Some r <-> s = (p ++ r)%string.
Proof.
  revert s. induction p as [|a p IH]; intros s; simpl.
  - destruct s; split; congruence.
  - destruct s as [|b s]; [split; discriminate|].
    destruct (Ascii.eqb a b) eqn:E.
    + apply Ascii.eqb_eq in E. subst b. rewrite IH. split; congruence.
    + apply Ascii.eqb_neq in E. split; [discriminate | congruence].
Qed.

Lemma stripAny_spec (ps : list string) (s r : string) :
  Js.stripAny ps s = Some r -> exists p, In p ps /\ s = (p ++ r)%string.
Proof.
  induction ps as [|p ps IH]; simpl; [discriminate|].
  destruct (Js.stripPrefix p s) as [r'|] eqn:E.
  - intros [= ->]. apply stripPrefix_spec in E. eauto.
  - intros H. destruct (IH H) as (q & Hq & ->). eauto.
Qed.

(** No white space character is the beginning of another one. *)
Lemma stripWhiteSpace_whiteSpace (w r : string) :
  In w Js.whiteSpace -> Js.stripWhiteSpace (w ++ r) = Some r.
Proof.
  unfold Js.whiteSpace, Js.whiteSpaceCodePoints. simpl map. intros H.
  repeat (destruct H as [<-|H]; [vm_compute; reflexivity|]). contradiction.
Qed.

Lemma whiteSpace_length (w : string) : In w Js.whiteSpace -> 1 <= String.length w.
Proof.
  unfold Js.whiteSpace, Js.whiteSpaceCodePoints. simpl map. intros H.
  repeat (destruct H as [<-|H]; [vm_compute; lia|]). contradiction.
Qed.

Lemma string_length_append (a b : string) :
  String.length (a ++ b) = String.length a + String.length b.
Proof. induction a as [|c a IH]; simpl; [reflexivity | now rewrite IH]. Qed.

Lemma Blank_inv (s : string) :
  Blank s -> s = "" \/ exists w r, In w Js.whiteSpace /\ Blank r /\ s = (w ++ r)%string.
Proof. intros [|w r Hw Hr]; [now left | right; eauto]. Qed.

Lemma stripWhiteSpace_Blank (s r : string) :
  Js.stripWhiteSpace s = Some r -> (Blank s <-> Blank r).
Proof.
  intros Hs. destruct (stripAny_spec _ _ _ Hs) as (w & Hw & ->). split.
  - intros Hb. apply Blank_inv in Hb. destruct Hb as [He | (w' & r' & Hw' & Hr' & He)].
    + pose proof (whiteSpace_length w Hw) as Hl.
      apply (f_equal String.length) in He. rewrite string_length_append in He.
      simpl in He. lia.
    + rewrite He, (stripWhiteSpace_whiteSpace w' r' Hw') in Hs. now injection Hs as <-.
  - now apply Blank_more.
Qed.

Lemma stripWhiteSpace_none_Blank (s : string) :
  Js.stripWhiteSpace s = None -> (Blank s <-> s = "").
Proof.
  intros Hs. split.
  - intros Hb. apply Blank_inv in Hb. destruct Hb as [He | (w & r & Hw & _ & He)];
      [assumption|].
    rewrite He, (stripWhiteSpace_whiteSpace w r Hw) in Hs. discriminate.
  - intros ->. constructor.
Qed.

Lemma stripWhiteSpace_shorter (s r : string) :
  Js.stripWhiteSpace s = Some r -> String.length r < String.length s.
Proof.
  intros Hs. destruct (stripAny_spec _ _ _ Hs) as (w & Hw & ->).
  rewrite string_length_append. pose proof (whiteSpace_length w Hw). lia.
Qed.

Lemma trimStartRounds_empty (n : nat) (s : string) :
  String.length s <= n -> (Js.trimStartRounds n s = "" <-> Blank s).
Proof.
  revert s. induction n as [|n IH]; intros s Hn; simpl.
  - destruct s; simpl in Hn; [|lia]. split; [constructor | reflexivity].
  - destruct (Js.stripWhiteSpace s) as [r|] eqn:Hs.
    + rewrite (stripWhiteSpace_Blank s r Hs). apply IH.
      pose proof (stripWhiteSpace_shorter s r Hs). lia.
    + now rewrite (stripWhiteSpace_none_Blank s Hs).
Qed.

(** What [trimStart] returns does not start with white space. *)
Lemma trimStartRounds_done (n : nat) (s : string) :
  String.length s <= n ->
  Js.trimStartRounds n s = "" \/ Js.stripWhiteSpace (Js.trimStartRounds n s) = None.
Proof.
  revert s. induction n as [|n IH]; intros s Hn; simpl.
  - destruct s; simpl in Hn; [now left | lia].
  - destruct (Js.stripWhiteSpace s) as [r|] eqn:Hs; [|now right].
    apply IH. pose proof (stripWhiteSpace_shorter s r Hs). lia.
Qed.

Lemma trimStart_fixed (r : string) :
  Js.stripWhiteSpace r = None -> Js.trimStart r = r.
Proof.
  intros Hr. unfold Js.trimStart. destruct (String.length r); simpl; [reflexivity|].
  now rewrite Hr.
Qed.

Lemma trimStart_empty_iff (s : string) : Js.trimStart s = "" <-> Blank s.
Proof. now apply trimStartRounds_empty. Qed.

(** A string trims to the empty string exactly when it is blank. *)
Lemma trim_empty_iff (s : string) : Js.trim s = "" <-> Blank s.
Proof.
  rewrite <- trimStart_empty_iff. unfold Js.trim.
  destruct (trimStartRounds_done (String.length s) s (le_n _)) as [He|Hn];
    fold (Js.trimStart s) in *.
  - rewrite He. simpl. tauto.
  - destruct (Js.trimStart s) as [|c r] eqn:E; [simpl; tauto|].
    cbn [Js.trimEnd]. rewrite (trimStart_fixed _ Hn). simpl. split; discriminate.
Qed.

Lemma Blank_app (a b : string) : Blank a -> Blank b -> Blank (a ++ b).
Proof.
  induction 1 as [|w a Hw _ IH]; intros Hb; simpl; [exact Hb|].
  assert (((w ++ a) ++ b = w ++ (a ++ b))%string) as ->.
  { clear. induction w as [|c w IHw]; simpl; [reflexivity | now rewrite IHw]. }
  apply Blank_more; [exact Hw | now apply IH].
Qed.

(** [trim] takes white space off both ends and nothing else: the string
    is what was trimmed between two blank strings. *)
Lemma trimStart_spec (s : string) :
  exists a, Blank a /\ s = (a ++ Js.trimStart s)%string.
Proof.
  unfold Js.trimStart. generalize (String.length s) as n. intros n. revert s.
  induction n as [|n IH]; intros s; simpl.
  - exists "". split; [constructor | reflexivity].
  - destruct (Js.stripWhiteSpace s) as [r|] eqn:Hs.
    + destruct (stripAny_spec _ _ _ Hs) as (w & Hw & ->).
      destruct (IH r) as (a & Ha & Hr). exists (w ++ a)%string. split.
      * now apply Blank_more.
      * rewrite Hr at 1. clear. induction w as [|c w IHw]; simpl;
          [reflexivity | now rewrite IHw].
    + exists "". split; [constructor | reflexivity].
Qed.

Lemma trimEnd_spec (s : string) :
  exists b, Blank b /\ s = (Js.trimEnd s ++ b)%string.
Proof.
  induction s as [|c s (b & Hb & IH)].
  - exists "". split; [constructor | reflexivity].
  - cbn [Js.trimEnd]. destruct (Js.truthy (Js.trimStart (String c s))) eqn:Ht.
    + exists b. split; [exact Hb|]. simpl. now rewrite <- IH.
    + exists (String c s). split; [|reflexivity].
      apply trimStart_empty_iff. now destruct (Js.trimStart (String c s)).
Qed.

Lemma trim_spec (s : string) :
  exists a b, Blank a /\ Blank b /\ s = (a ++ Js.trim s ++ b)%string.
Proof.
  destruct (trimStart_spec s) as (a & Ha & Hs).
  destruct (trimEnd_spec (Js.trimStart s)) as (b & Hb & He).
  exists a, b. unfold Js.trim. now rewrite <- He.
Qed.

Lemma startsWith_spec (s p : string) :
  Js.startsWith s p = true <-> exists post, s = (p ++ post)%string.
Proof.
  revert s. induction p as [|a p IH]; intros s; simpl.
  - split; [intros _; now exists s | intros _; now destruct s].
  - destruct s as [|b s]; simpl.
    + split; [discriminate | intros [post H]; discriminate].
    + rewrite andb_true_iff, Ascii.eqb_eq, IH. split.
      * intros [-> [post ->]]. now exists post.
      * intros [post H]. injection H as -> ->. split; [reflexivity | now exists post].
  Qed.

Lemma includes_spec (s p : string) :
  Js.includes s p = true <-> substring p s.
Proof.
  unfold substring. induction s as [|c s IH].
  - destruct p as [|a p]; simpl; split; try discriminate; try reflexivity.
    + intros _. now exists "", "".
    + intros ([|? ?] & post & H); simpl in H; discriminate.
  - change (Js.includes (String c s) p)
      with (Js.startsWith (String c s) p || Js.includes s p).
    rewrite orb_true_iff, startsWith_spec, IH. split.
    + intros [[post H] | (pre & post & H)].
      * now exists "", post.
      * exists (String c pre), post. simpl. now rewrite H.
    + intros ([|c' pre] & post & H).
      * left. now exists post.
      * right. simpl in H. injection H as _ ->. now exists pre, post.
Qed.

(** ** Traces of the handlers *)

Lemma fetchTasks_trace_ok (data : list Task.t) :
  trace (fetchTasks (HttpResponse true (Some data)))
  = [SetLoading true; Fetch GET_tasks; SetTasks data; SetError ""; SetLoading false].
Proof. reflexivity. Qed.

Lemma fetchTasks_trace_failed (response : Response (list Task.t)) :
  parsed response = None ->
  exists err,
    trace (fetchTasks response)
    = [SetLoading true; Fetch GET_tasks;
       SetError "⚠️ Backend not running. Start the server!";
       ConsoleError "Error fetching tasks:" err; SetLoading false].
Proof.
  destruct response as [|[] [data|]]; simpl; intros H; try discriminate;
    eexists; reflexivity.
Qed.

Lemma addTask_trace_blank (s : State) (response : Response Task.t) :
  Js.trim (title s) = "" \/ Js.trim (description s) = "" ->
  trace (addTask s response) = [PreventDefault; SetError "⚠️ Please fill in both fields"].
Proof.
  intros H. unfold addTask.
  assert (negb (Js.truthy (Js.trim (title s))) || negb (Js.truthy (Js.trim (description s)))
          = true) as ->; [|reflexivity].
  destruct H as [-> | ->]; simpl; [reflexivity | apply orb_true_r].
Qed.

Lemma addTask_guard_passed (s : State) :
  Js.trim (title s) <> "" -> Js.trim (description s) <> "" ->
  negb (Js.truthy (Js.trim (title s))) || negb (Js.truthy (Js.trim (description s))) = false.
Proof.
  intros Ht Hd. apply truthy_true in Ht, Hd. now rewrite Ht, Hd.
Qed.

Lemma addTask_trace_ok (s : State) (newTask : Task.t) :
  Js.trim (title s) <> "" -> Js.trim (description s) <> "" ->
  trace (addTask s (HttpResponse true (Some newTask)))
  = [PreventDefault; SetLoading true;
     Fetch (POST_tasks (title s) (description s) (priority s));
     SetTasks (newTask :: tasks s); SetTitle ""; SetDescription "";
     SetPriority "medium"; SetError ""; SetLoading false].
Proof.
  intros Ht Hd. unfold addTask. rewrite (addTask_guard_passed s Ht Hd). reflexivity.
Qed.

Lemma toggleTask_trace_ok (s : State) (id : Z) (updatedTask : Task.t) :
  trace (toggleTask s id (HttpResponse true (Some updatedTask)))
  = [Fetch (PUT_task id);
     SetTasks (map (fun task => if (Task.id task =? id)%Z then updatedTask else task)
                   (tasks s))].
Proof. reflexivity. Qed.

Lemma toggleTask_trace_failed (s : State) (id : Z) (response : Response Task.t) :
  parsed response = None ->
  exists err,
    trace (toggleTask s id response)
    = [Fetch (PUT_task id); SetError "❌ Failed to update task";
       ConsoleError "Error updating task:" err].
Proof.
  destruct response as [|[] [u|]]; simpl; intros H; try discriminate;
    eexists; reflexivity.
Qed.

Lemma deleteTask_trace_ok {A} (s : State) (id : Z) (response : Response A) :
  accepted response = true ->
  trace (deleteTask s id response)
  = [Fetch (DELETE_task id);
     SetTasks (List.filter (fun task => negb (Task.id task =? id)%Z) (tasks s));
     SetError ""].
Proof.
  destruct response as [|[] body]; simpl; intros H; try discriminate; reflexivity.
Qed.

Lemma deleteTask_trace_failed {A} (s : State) (id : Z) (response : Response A) :
  accepted response = false ->
  exists err,
    trace (deleteTask s id response)
    = [Fetch (DELETE_task id); SetError "❌ Failed to delete task";
       ConsoleError "Error updating task:" err].
Proof.
  destruct response as [|[] body]; simpl; intros H; try discriminate;
    eexists; reflexivity.
Qed.

(** ** Derived statistics *)

(** C1.  For every state of the collection the derived statistics satisfy
    [active + completed = total] and [highPriority <= active], where
    [total] is the length of the collection and the three counts are the
    numbers of records that are completed, not completed, and of priority
    ['high'] and not completed.  The completed flag is a [bool] by the type
    of the record. *)
Theorem stats_invariant (s : State) :
  Stats.total (stats s) = length (tasks s) /\
  Stats.active (stats s) + Stats.completed (stats s) = Stats.total (stats s) /\
  Stats.highPriority (stats s) <= Stats.active (stats s).
Proof.
  unfold stats; simpl. split; [reflexivity | split].
  - apply (filter_length_split (fun t => Task.completed t)).
  - apply filter_length_mono. intros t H. now apply andb_true_iff in H.
Qed.

(** The scenario of the specification: one active high-priority record
    and one completed low-priority record. *)
Example stats_scenario :
  stats (mkState [Task.mk 1 "A" "" "high" false ""; Task.mk 2 "B" "" "low" true ""]
                 "" "" "medium" false "" "" "all" "classic" true)
  = Stats.mk 2 1 1 1.
Proof. reflexivity. Qed.

(** ** Create *)

(** C2.  When the title or the description is empty after trimming, the
    create handler only sets the validation error: it sends no request,
    and the collection, the title input, the description input and the
    priority selection are as before. *)
Theorem addTask_blank_rejected (s : State) (response : Response Task.t) :
  Js.trim (title s) = "" \/ Js.trim (description s) = "" ->
  requests (trace (addTask s response)) = [] /\
  error (create s response) = "⚠️ Please fill in both fields" /\
  tasks (create s response) = tasks s /\
  title (create s response) = title s /\
  description (create s response) = description s /\
  priority (create s response) = priority s.
Proof.
  intros H. unfold create. rewrite (addTask_trace_blank s response H).
  repeat split.
Qed.

Lemma addTask_blank_rejected_witness :
  let s := mkState [Task.mk 1 "A" "a" "low" false "t0"]
                   (Js.utf8 0xA0 ++ " " ++ Js.utf8 0x3000) "write" "high" false ""
                   "" "all" "classic" true in
  requests (trace (addTask s NetworkError)) = [] /\
  error (create s NetworkError) = "⚠️ Please fill in both fields" /\
  tasks (create s NetworkError) = tasks s /\
  title (create s NetworkError) = title s /\
  description (create s NetworkError) = description s /\
  priority (create s NetworkError) = priority s.
Proof.
  intros s. apply (addTask_blank_rejected s NetworkError). left.
  vm_compute. reflexivity.
Defined.

(** C5.  After a successful create with a title and a description that are
    not empty after trimming, the record the server returned is at the
    front of the collection, the rest of the collection follows unchanged,
    and the title input, the description input and the error are empty. *)
Theorem create_success_prepends (s : State) (response : Response Task.t)
    (newTask : Task.t) :
  Js.trim (title s) <> "" ->
  Js.trim (description s) <> "" ->
  parsed response = Some newTask ->
  requests (trace (addTask s response))
    = [POST_tasks (title s) (description s) (priority s)] /\
  tasks (create s response) = newTask :: tasks s /\
  title (create s response) = "" /\
  description (create s response) = "" /\
  error (create s response) = "".
Proof.
  intros Ht Hd Hr.
  destruct response as [|[] [u|]]; simpl in Hr; try discriminate.
  injection Hr as ->. unfold create. rewrite (addTask_trace_ok s newTask Ht Hd).
  repeat split.
Qed.

Lemma create_success_prepends_witness :
  let s := mkState [Task.mk 1 "A" "a" "low" false "t0"] " Buy milk " "2 litres" "high"
                   false "❌ Failed to add task" "" "all" "classic" true in
  let r := HttpResponse true (Some (Task.mk 2 " Buy milk " "2 litres" "high" false "t1")) in
  tasks (create s r)
  = [Task.mk 2 " Buy milk " "2 litres" "high" false "t1"; Task.mk 1 "A" "a" "low" false "t0"] /\
  title (create s r) = "" /\ description (create s r) = "" /\ error (create s r) = "".
Proof.
  intros s r.
  apply (create_success_prepends s r (Task.mk 2 " Buy milk " "2 litres" "high" false "t1"));
    [discriminate | discriminate | reflexivity].
Defined.

(** ** Toggle *)

Lemma toggle_success_keeps_error (s : State) (id : Z) (updatedTask : Task.t) :
  error (toggle s id (HttpResponse true (Some updatedTask))) = error s.
Proof. reflexivity. Qed.

(** C3.  The error is not cleared by every successful operation: a toggle
    that fails sets the banner, and a toggle that then succeeds updates
    the collection and leaves the banner standing, whereas a successful
    load, create or delete from the same state clears it. *)
Theorem toggle_success_leaves_stale_error :
  let t1 := Task.mk 1 "A" "a" "high" false "t0" in
  let t1' := Task.mk 1 "A" "a" "high" true "t0" in
  let s0 := mkState [t1] "T" "D" "medium" false "" "" "all" "classic" true in
  let s1 := toggle s0 1 NetworkError in
  let s2 := toggle s1 1 (HttpResponse true (Some t1')) in
  error s1 = "❌ Failed to update task" /\
  tasks s2 = [t1'] /\
  error s2 = "❌ Failed to update task" /\
  error (load s1 (HttpResponse true (Some [t1]))) = "" /\
  error (create s1 (HttpResponse true (Some t1'))) = "" /\
  error (delete s1 1 (HttpResponse true (Some tt))) = "".
Proof. repeat split. Qed.

(** C4.  A successful toggle puts the record the server returned at every
    position whose record has the given id and leaves every other position
    as it was, so length and order are kept; a failed toggle leaves the
    whole collection as it was. *)
Theorem toggle_replaces_matching (s : State) (id : Z) (response : Response Task.t) :
  (forall updatedTask, parsed response = Some updatedTask ->
     length (tasks (toggle s id response)) = length (tasks s) /\
     forall (i : nat) (task : Task.t), tasks s !! i = Some task ->
       (Task.id task = id -> tasks (toggle s id response) !! i = Some updatedTask) /\
       (Task.id task <> id -> tasks (toggle s id response) !! i = Some task)) /\
  (parsed response = None -> tasks (toggle s id response) = tasks s).
Proof.
  split.
  - intros u Hr. destruct response as [|[] [u'|]]; simpl in Hr; try discriminate.
    injection Hr as ->. unfold toggle. rewrite toggleTask_trace_ok. simpl. split.
    + apply length_map.
    + intros i task Hi.
      change (map ?f ?l) with (f <$> l). rewrite list_lookup_fmap, Hi. simpl.
      split; intros H.
      * apply Z.eqb_eq in H. now rewrite H.
      * apply Z.eqb_neq in H. now rewrite H.
  - intros Hr. unfold toggle.
    destruct (toggleTask_trace_failed s id response Hr) as [err ->]. reflexivity.
Qed.

Lemma toggle_replaces_matching_witness :
  let a := Task.mk 1 "A" "a" "high" false "t0" in
  let b := Task.mk 2 "B" "b" "low" false "t1" in
  let b' := Task.mk 2 "B" "b" "low" true "t1" in
  let s := mkState [a; b] "" "" "medium" false "" "" "all" "classic" true in
  (tasks (toggle s 2 (HttpResponse true (Some b'))) !! 1%nat = Some b' /\
   tasks (toggle s 2 (HttpResponse true (Some b'))) !! 0%nat = Some a) /\
  tasks (toggle s 2 (HttpResponse false (Some b'))) = [a; b].
Proof.
  intros a b b' s. split; [split|].
  - apply (proj2 (proj1 (toggle_replaces_matching s 2 (HttpResponse true (Some b')))
                    b' eq_refl) 1%nat b eq_refl).
    reflexivity.
  - apply (proj2 (proj1 (toggle_replaces_matching s 2 (HttpResponse true (Some b')))
                    b' eq_refl) 0%nat a eq_refl).
    discriminate.
  - apply (proj2 (toggle_replaces_matching s 2 (HttpResponse false (Some b')))).
    reflexivity.
Defined.

(** ** Delete *)

(** C9.  A successful delete leaves exactly the records whose id differs
    from the given one: no record with that id remains, the result is a
    sublist of the collection (so the others keep their order) that
    contains every sublist free of that id, and the error is cleared; a
    failed delete leaves the collection as it was. *)
Theorem delete_removes_matching {A} (s : State) (id : Z) (response : Response A) :
  (accepted response = true ->
     Forall (fun task => Task.id task <> id) (tasks (delete s id response)) /\
     tasks (delete s id response) `sublist_of` tasks s /\
     (forall k, k `sublist_of` tasks s -> Forall (fun task => Task.id task <> id) k ->
                k `sublist_of` tasks (delete s id response)) /\
     error (delete s id response) = "") /\
  (accepted response = false -> tasks (delete s id response) = tasks s).
Proof.
  split.
  - intros Hr. unfold delete. rewrite (deleteTask_trace_ok s id response Hr). simpl.
    repeat split.
    + eapply Forall_impl; [apply filter_all_true|].
      intros t Ht. simpl in Ht. apply negb_true_iff in Ht. now apply Z.eqb_neq.
    + apply filter_sublist.
    + intros k Hk Hid. apply filter_greatest; [assumption|].
      eapply Forall_impl; [exact Hid|].
      intros t Ht. simpl in Ht. apply negb_true_iff. now apply Z.eqb_neq.
  - intros Hr. unfold delete.
    destruct (deleteTask_trace_failed s id response Hr) as [err ->]. reflexivity.
Qed.

Lemma delete_removes_matching_witness :
  let a := Task.mk 1 "A" "a" "high" false "t0" in
  let b := Task.mk 2 "B" "b" "low" false "t1" in
  let s := mkState [a; b; a] "" "" "medium" false "❌ Failed to delete task" ""
                   "all" "classic" true in
  (Forall (fun task => Task.id task <> 1%Z)
          (tasks (delete s 1 (HttpResponse true (@None unit)))) /\
   error (delete s 1 (HttpResponse true (@None unit))) = "") /\
  tasks (delete s 1 (@NetworkError unit)) = [a; b; a].
Proof.
  intros a b s. split; [split|].
  - apply (proj1 (delete_removes_matching s 1 (HttpResponse true (@None unit)))).
    reflexivity.
  - apply (proj1 (delete_removes_matching s 1 (HttpResponse true (@None unit)))).
    reflexivity.
  - apply (proj2 (delete_removes_matching s 1 (@NetworkError unit))).
    reflexivity.
Defined.

(** ** Load *)

(** C8.  When the load fails (the request is rejected, the status is not a
    success, or the body does not parse) the error is the text saying the
    backend is not running and the collection is as before; on every path
    the loading flag is set before the request is sent and cleared as the
    last step, and nothing in between touches it. *)
Theorem fetchTasks_failure (s : State) (response : Response (list Task.t)) :
  (parsed response = None ->
     error (load s response) = "⚠️ Backend not running. Start the server!" /\
     tasks (load s response) = tasks s) /\
  (exists mid,
     trace (fetchTasks response)
       = [SetLoading true; Fetch GET_tasks] ++ mid ++ [SetLoading false] /\
     Forall (fun e => match e with SetLoading _ | Fetch _ => False | _ => True end) mid) /\
  loading (load s response) = false.
Proof.
  destruct (parsed response) as [data|] eqn:Hr.
  - destruct response as [|[] [d|]]; simpl in Hr; try discriminate.
    split; [discriminate|]. split; [|reflexivity].
    exists [SetTasks d; SetError ""]. split; [reflexivity|]. repeat constructor.
  - destruct (fetchTasks_trace_failed response Hr) as [err Ht].
    unfold load. rewrite Ht. split; [now split|]. split; [|reflexivity].
    eexists [_; _]. split; [reflexivity|]. repeat constructor.
Qed.

Lemma fetchTasks_failure_witness :
  let a := Task.mk 1 "A" "a" "high" false "t0" in
  let s := mkState [a] "" "" "medium" false "" "" "all" "classic" true in
  (error (load s (HttpResponse false None)) = "⚠️ Backend not running. Start the server!" /\
   tasks (load s (HttpResponse false None)) = [a]) /\
  (error (load s NetworkError) = "⚠️ Backend not running. Start the server!" /\
   tasks (load s NetworkError) = [a]).
Proof.
  intros a s. split.
  - apply (proj1 (fetchTasks_failure s (HttpResponse false None))). reflexivity.
  - apply (proj1 (fetchTasks_failure s NetworkError)). reflexivity.
Defined.

(** ** Filter *)

Lemma matchesFilter_spec (s : State) (task : Task.t) :
  matchesFilter s task = true <-> statusAdmits (filterStatus s) task.
Proof.
  unfold matchesFilter, statusAdmits.
  rewrite !orb_true_iff, !andb_true_iff, !String.eqb_eq, negb_true_iff. tauto.
Qed.

Lemma matchesSearch_spec (s : State) (task : Task.t) :
  matchesSearch s task = true <->
  substring (toLowerCase (searchQuery s)) (toLowerCase (Task.title task)) \/
  substring (toLowerCase (searchQuery s)) (toLowerCase (Task.description task)).
Proof.
  unfold matchesSearch. now rewrite orb_true_iff, !includes_spec.
Qed.

Lemma visible_spec_iff (s : State) (task : Task.t) :
  matchesSearch s task && matchesFilter s task = true <->
  visible_spec (searchQuery s) (filterStatus s) task.
Proof.
  unfold visible_spec.
  now rewrite andb_true_iff, matchesSearch_spec, matchesFilter_spec.
Qed.

(** C6.  Filtering is idempotent: filtering the visible subset again, with
    the same query and status, gives the visible subset.  It is
    commutative: restricting by the query and then by the status gives the
    same list as restricting by the status and then by the query, and both
    are the visible subset.  The visible subset is computed from the cells
    and is a sublist of the collection, which it leaves as it is. *)
Theorem filteredTasks_idempotent_commutative (s : State) :
  filteredTasks (applyEffect s (SetTasks (filteredTasks s))) = filteredTasks s /\
  List.filter (matchesFilter s) (List.filter (matchesSearch s) (tasks s)) = filteredTasks s /\
  List.filter (matchesSearch s) (List.filter (matchesFilter s) (tasks s)) = filteredTasks s /\
  filteredTasks s `sublist_of` tasks s.
Proof.
  unfold filteredTasks. repeat split.
  - simpl. apply filter_fixed.
    apply (filter_all_true (fun task => matchesSearch s task && matchesFilter s task)).
  - apply filter_andb.
  - rewrite filter_andb. apply List.filter_ext. intros t. apply andb_comm.
  - apply filter_sublist.
Qed.

Lemma matchesSearch_ascii (s : State) (task : Task.t) :
  Js.isAscii (searchQuery s) = true ->
  Js.isAscii (Task.title task) = true ->
  Js.isAscii (Task.description task) = true ->
  (matchesSearch s task = true <->
   substring (Js.asciiLowerCase (searchQuery s)) (Js.asciiLowerCase (Task.title task)) \/
   substring (Js.asciiLowerCase (searchQuery s))
             (Js.asciiLowerCase (Task.description task))).
Proof.
  intros Hq Ht Hd. rewrite matchesSearch_spec.
  now rewrite (toLowerCase_ascii _ Hq), (toLowerCase_ascii _ Ht), (toLowerCase_ascii _ Hd).
Qed.

(** C7.  The visible subset is exactly the records of the collection whose
    lower-cased title or description contains the lower-cased query and
    whose completed flag agrees with the status, in the order of the
    collection: its records satisfy that condition, it is a sublist of the
    collection, and it contains every sublist whose records satisfy the
    condition.  Lower-casing is the engine's; on ASCII text the condition
    is that the query occurs in the title or the description once [A]-[Z]
    are read as [a]-[z] in both.  The query "a" keeps records titled
    "Alpha" and "Beta", the query "BETA" keeps of the two the one titled
    "Beta", and the status "completed" over a collection without
    completed records gives the empty list. *)
Theorem filteredTasks_exact (s : State) :
  (forall task, task ∈ filteredTasks s <->
                task ∈ tasks s /\ visible_spec (searchQuery s) (filterStatus s) task) /\
  filteredTasks s `sublist_of` tasks s /\
  (forall k, k `sublist_of` tasks s ->
             Forall (visible_spec (searchQuery s) (filterStatus s)) k ->
             k `sublist_of` filteredTasks s) /\
  (forall task,
     Js.isAscii (searchQuery s) = true ->
     Js.isAscii (Task.title task) = true ->
     Js.isAscii (Task.description task) = true ->
     (task ∈ filteredTasks s <->
      task ∈ tasks s /\
      (substring (Js.asciiLowerCase (searchQuery s)) (Js.asciiLowerCase (Task.title task)) \/
       substring (Js.asciiLowerCase (searchQuery s))
                 (Js.asciiLowerCase (Task.description task))) /\
      statusAdmits (filterStatus s) task)) /\
  (forall ta tb, Task.title ta = "Alpha" -> Task.title tb = "Beta" ->
                 tasks s = [ta; tb] -> searchQuery s = "a" -> filterStatus s = "all" ->
                 filteredTasks s = [ta; tb]) /\
  (forall ta tb, Task.title ta = "Alpha" -> Task.title tb = "Beta" ->
                 Task.description ta = "" -> Task.description tb = "" ->
                 tasks s = [ta; tb] -> searchQuery s = "BETA" -> filterStatus s = "all" ->
                 filteredTasks s = [tb]) /\
  (filterStatus s = "completed" ->
   Forall (fun task => Task.completed task = false) (tasks s) ->
   filteredTasks s = []).
Proof.
  unfold filteredTasks. split; [|split; [|split; [|split; [|split; [|split]]]]].
  - intros task. rewrite !list_elem_of_In, List.filter_In, visible_spec_iff. tauto.
  - apply filter_sublist.
  - intros k Hk Hv. apply filter_greatest; [assumption|].
    eapply Forall_impl; [exact Hv|]. intros t Ht. now apply visible_spec_iff.
  - intros task Hq Ht Hd.
    rewrite !list_elem_of_In, List.filter_In, andb_true_iff.
    now rewrite (matchesSearch_ascii s task Hq Ht Hd), matchesFilter_spec.
  - intros ta tb Ha Hb Hts Hq Hst. rewrite Hts. cbn [List.filter].
    unfold matchesSearch, matchesFilter.
    rewrite Hq, Hst, Ha, Hb.
    rewrite (toLowerCase_ascii "Alpha" eq_refl), (toLowerCase_ascii "Beta" eq_refl),
      (toLowerCase_ascii "a" eq_refl).
    reflexivity.
  - intros ta tb Ha Hb Hda Hdb Hts Hq Hst. rewrite Hts. cbn [List.filter].
    unfold matchesSearch, matchesFilter.
    rewrite Hq, Hst, Ha, Hb, Hda, Hdb.
    rewrite (toLowerCase_ascii "Alpha" eq_refl), (toLowerCase_ascii "Beta" eq_refl),
      (toLowerCase_ascii "BETA" eq_refl), (toLowerCase_ascii "" eq_refl).
    reflexivity.
  - intros Hst Hall. induction Hall as [|t l Ht _ IH]; [reflexivity|].
    simpl. unfold matchesFilter at 1. rewrite Hst, Ht. simpl.
    rewrite andb_false_r. exact IH.
Qed.

(** ** Numbers: rounding does not cross a bound that is itself a number *)

Section Binary64.
Local Open Scope Z_scope.

Lemma digits2_pos_bounds (p : positive) :
  2 ^ (Zpos (digits2_pos p) - 1) <= Zpos p < 2 ^ Zpos (digits2_pos p).
Proof.
  induction p as [p IH|p IH|]; simpl digits2_pos.
  - rewrite Pos2Z.inj_succ, (Pos2Z.inj_xI p).
    replace (Z.succ (Zpos (digits2_pos p)) - 1) with (Z.succ (Zpos (digits2_pos p) - 1)) by lia.
    rewrite !Z.pow_succ_r by lia. lia.
  - rewrite Pos2Z.inj_succ, (Pos2Z.inj_xO p).
    replace (Z.succ (Zpos (digits2_pos p)) - 1) with (Z.succ (Zpos (digits2_pos p) - 1)) by lia.
    rewrite !Z.pow_succ_r by lia. lia.
  - simpl. lia.
Qed.

Lemma shr_1_shifted (a : shr_record) : 0 <= shr_m a -> shifted 1 a (shr_1 a).
Proof.
  destruct a as [m r s]. unfold shifted, inexact. simpl shr_m. intros Hm.
  change (2 ^ 1) with 2.
  destruct m as [|[p|p|]|p]; try lia; simpl shr_1; simpl shr_m; simpl shr_r; simpl shr_s.
  - split; [reflexivity|]. simpl. intros H; left; exact H.
  - split; [rewrite (Pos2Z.inj_xI p); apply Z.div_unique with 1; lia|].
    intros _. right. rewrite (Pos2Z.inj_xI p).
    replace (2 * Zpos p + 1) with (1 + Zpos p * 2) by lia. rewrite Z.mod_add by lia. discriminate.
  - split; [rewrite (Pos2Z.inj_xO p); apply Z.div_unique with 0; lia|].
    simpl. intros H; left; exact H.
  - split; [reflexivity|]. intros _. right. discriminate.
Qed.

Lemma shifted_trans (n k : Z) (a b c : shr_record) :
  0 <= n -> 0 <= k -> 0 <= shr_m a ->
  shifted n a b -> shifted k b c -> shifted (n + k) a c.
Proof.
  intros Hn Hk Ha [Hb Hib] [Hc Hic]. split.
  - rewrite Hc, Hb, Z.pow_add_r, Z.div_div by lia. reflexivity.
  - intros H. destruct (Hic H) as [H1 | H1].
    + destruct (Hib H1) as [H2 | H2]; [now left | right].
      intros H0. apply H2. rewrite Z.pow_add_r in H0 by lia.
      apply Z.mod_divide; [lia|]. apply Z.mod_divide in H0; [|lia].
      destruct H0 as [q Hq]. exists (q * 2 ^ k). lia.
    + right. intros H0. apply H1. rewrite Hb.
      rewrite Z.pow_add_r in H0 by lia.
      apply Z.mod_divide in H0; [|lia]. destruct H0 as [q Hq].
      rewrite Hq. replace (q * (2 ^ n * 2 ^ k)) with (q * 2 ^ k * 2 ^ n) by lia.
      rewrite Z.div_mul by lia. apply Z.mod_mul. lia.
Qed.

Lemma shifted_nonneg (n : Z) (a b : shr_record) :
  0 <= n -> 0 <= shr_m a -> shifted n a b -> 0 <= shr_m b.
Proof.
  intros Hn Ha [Hb _]. rewrite Hb.
  apply Z.div_pos; [assumption | now apply Z.pow_pos_nonneg].
Qed.

Lemma iter_pos_shifted (p : positive) :
  forall a, 0 <= shr_m a -> shifted (Zpos p) a (SpecFloat.iter_pos shr_1 p a).
Proof.
  induction p as [p IH|p IH|]; intros a Ha; simpl SpecFloat.iter_pos.
  - pose proof (shr_1_shifted a Ha) as H1.
    pose proof (shifted_nonneg 1 _ _ ltac:(lia) Ha H1) as Hb.
    pose proof (IH _ Hb) as H2.
    pose proof (shifted_nonneg (Zpos p) _ _ ltac:(lia) Hb H2) as Hc.
    pose proof (IH _ Hc) as H3.
    rewrite (Pos2Z.inj_xI p). replace (2 * Zpos p + 1) with (1 + Zpos p + Zpos p) by lia.
    eapply shifted_trans; [lia| lia| assumption | | exact H3].
    eapply shifted_trans; [lia| lia| assumption | exact H1 | exact H2].
  - pose proof (IH _ Ha) as H2.
    pose proof (shifted_nonneg (Zpos p) _ _ ltac:(lia) Ha H2) as Hc.
    pose proof (IH _ Hc) as H3.
    rewrite (Pos2Z.inj_xO p). replace (2 * Zpos p) with (Zpos p + Zpos p) by lia.
    eapply shifted_trans; [lia| lia| assumption | exact H2 | exact H3].
  - now apply shr_1_shifted.
Qed.

Lemma pow2_pos (n : Z) : 0 <= n -> 0 < 2 ^ n.
Proof. intros H. now apply Z.pow_pos_nonneg. Qed.

Lemma pow2_split (a b : Z) : 0 <= b <= a -> 2 ^ a = 2 ^ (a - b) * 2 ^ b.
Proof. intros H. rewrite <- Z.pow_add_r by lia. f_equal. lia. Qed.

Lemma pow2_lt_exp (a b : Z) : 0 <= a -> 0 <= b -> 2 ^ a < 2 ^ b -> a < b.
Proof. intros Ha Hb H. apply (Z.pow_lt_mono_r_iff 2); lia. Qed.

Lemma Zdigits2_bounds (m : Z) :
  0 < m -> 0 < Zdigits2 m /\ 2 ^ (Zdigits2 m - 1) <= m < 2 ^ Zdigits2 m.
Proof.
  destruct m as [|p|p]; try lia. intros _. simpl Zdigits2.
  split; [lia | apply digits2_pos_bounds].
Qed.

Lemma inexact_of_loc (m : Z) (l : location) :
  shr_m (shr_record_of_loc m l) = m /\
  (inexact (shr_record_of_loc m l) = true -> l <> loc_Exact).
Proof. destruct l as [|[]]; simpl; split; try reflexivity; discriminate. Qed.

Lemma round_nearest_even_bounds (mrs : shr_record) :
  let m := round_nearest_even (shr_m mrs) (loc_of_shr_record mrs) in
  shr_m mrs <= m <= shr_m mrs + 1 /\ (inexact mrs = false -> m = shr_m mrs).
Proof.
  destruct mrs as [m [] []]; unfold inexact; simpl; try destruct (Z.even m);
    split; try lia; try discriminate; reflexivity.
Qed.

(** First stage of [binary_round_aux]: the significand stays at or below a
    bound [k * 2^J] that can be written with 53 bits, on the coarser grid. *)
Lemma shr_fexp_bound (mx ex : Z) (lx : location) (k J : Z) :
  0 <= mx -> 0 <= J -> 0 < k < 2 ^ 53 -> -1074 <= J + ex ->
  mx <= k * 2 ^ J -> (lx <> loc_Exact -> mx < k * 2 ^ J) ->
  exists n, 0 <= n <= J /\
    snd (shr_fexp Number.prec Number.emax mx ex lx) = ex + n /\
    0 <= shr_m (fst (shr_fexp Number.prec Number.emax mx ex lx)) <= k * 2 ^ (J - n) /\
    (inexact (fst (shr_fexp Number.prec Number.emax mx ex lx)) = true ->
     shr_m (fst (shr_fexp Number.prec Number.emax mx ex lx)) < k * 2 ^ (J - n)).
Proof.
  intros Hmx HJ Hk Hlow Hle Hlt. unfold shr_fexp, shr.
  destruct (inexact_of_loc mx lx) as [Hm0 Hi0].
  destruct (fexp Number.prec Number.emax (Zdigits2 mx + ex) - ex) as [|p|p] eqn:HN.
  1,3: exists 0; simpl fst; simpl snd; rewrite Hm0, Z.sub_0_r;
       repeat split; try lia; intros H; apply Hlt, Hi0, H.
  assert (Zpos p <= J) as HpJ.
  { unfold fexp, SpecFloat.emin, Number.prec, Number.emax in HN.
    destruct (Z.max_spec (Zdigits2 mx + ex - 53) (3 - 1024 - 53)) as [[_ Hmax]|[_ Hmax]];
      rewrite Hmax in HN; [lia|].
    assert (0 < mx) as Hpos.
    { destruct mx as [|q|q]; try lia. simpl in HN. 
      destruct (Z.max_spec (0 + ex - 53) (3 - 1024 - 53)); lia. }
    destruct (Zdigits2_bounds mx Hpos) as [Hd [Hlo _]].
    assert (2 ^ (Zdigits2 mx - 1) < 2 ^ (53 + J)) as Hpw.
    { rewrite Z.pow_add_r by lia. pose proof (pow2_pos J HJ). nia. }
    apply pow2_lt_exp in Hpw; lia. }
  set (a := shr_record_of_loc mx lx) in *.
  assert (0 <= shr_m a) as Ha by lia.
  destruct (iter_pos_shifted p a Ha) as [Hb Hib].
  simpl fst; simpl snd. rewrite Hb, Hm0.
  pose proof (pow2_pos (Zpos p) ltac:(lia)) as Hp2.
  pose proof (pow2_pos (J - Zpos p) ltac:(lia)) as Hq2.
  pose proof (pow2_split J (Zpos p) ltac:(lia)) as HJs.
  exists (Zpos p). repeat split; try lia.
  - apply Z.div_pos; lia.
  - apply Z.div_le_upper_bound; [lia|]. nia.
  - intros Hi. apply Z.div_lt_upper_bound; [lia|].
    destruct (Hib Hi) as [H|H].
    + specialize (Hlt (Hi0 H)). nia.
    + rewrite Hm0 in H.
      assert (mx <> k * 2 ^ J); [|nia].
      intros ->. apply H. rewrite HJs.
      replace (k * (2 ^ (J - Zpos p) * 2 ^ Zpos p)) with (k * 2 ^ (J - Zpos p) * 2 ^ Zpos p) by lia.
      apply Z.mod_mul. lia.
Qed.

(** Second stage: shifting an exact value truncates. *)
Lemma shr_fexp_exact_le (m e : Z) :
  0 <= m ->
  let r := shr_fexp Number.prec Number.emax m e loc_Exact in
  e <= snd r /\ 0 <= shr_m (fst r) /\ shr_m (fst r) * 2 ^ (snd r - e) <= m.
Proof.
  intros Hm. unfold shr_fexp, shr.
  destruct (fexp Number.prec Number.emax (Zdigits2 m + e) - e) as [|p|p]; simpl.
  1,3: rewrite Z.sub_diag; simpl; lia.
  destruct (iter_pos_shifted p (Build_shr_record m false false) Hm) as [Hb _].
  simpl in Hb. rewrite Hb.
  pose proof (pow2_pos (Zpos p) ltac:(lia)) as Hp2.
  replace (e + Zpos p - e) with (Zpos p) by lia.
  repeat split; try lia.
  - apply Z.div_pos; lia.
  - rewrite Z.mul_comm. apply Z.mul_div_le. lia.
Qed.

Lemma binary_round_aux_below (mx ex : Z) (lx : location) (k J : Z) :
  0 <= mx -> 0 <= J -> 0 < k < 2 ^ 53 -> -1074 <= J + ex <= 900 ->
  mx <= k * 2 ^ J -> (lx <> loc_Exact -> mx < k * 2 ^ J) ->
  below (k * 2 ^ J) ex (binary_round_aux Number.prec Number.emax false mx ex lx).
Proof.
  intros Hmx HJ Hk Hrange Hle Hlt. unfold binary_round_aux.
  destruct (shr_fexp_bound mx ex lx k J Hmx HJ Hk ltac:(lia) Hle Hlt)
    as (n & Hn & He & Hm & Hi).
  destruct (shr_fexp Number.prec Number.emax mx ex lx) as [mrs e]. simpl fst in *; simpl snd in *.
  destruct (round_nearest_even_bounds mrs) as [Hr Hre].
  set (m1 := round_nearest_even (shr_m mrs) (loc_of_shr_record mrs)) in *.
  assert (0 <= m1 <= k * 2 ^ (J - n)) as Hm1.
  { destruct (inexact mrs) eqn:Hin; [specialize (Hi eq_refl); lia|].
    rewrite (Hre eq_refl). lia. }
  destruct (shr_fexp_exact_le m1 e ltac:(lia)) as (He2 & Hm2 & Hv).
  destruct (shr_fexp Number.prec Number.emax m1 e loc_Exact) as [mrs2 e2]. simpl fst in *; simpl snd in *.
  pose proof (pow2_pos n ltac:(lia)) as Hn2.
  pose proof (pow2_pos (e2 - e) ltac:(lia)) as He2p.
  pose proof (pow2_split J n ltac:(lia)) as HJs.
  assert (2 ^ (e2 - ex) = 2 ^ (e2 - e) * 2 ^ n) as Hes.
  { rewrite <- Z.pow_add_r by lia. f_equal; lia. }
  destruct (shr_m mrs2) as [|m2|m2] eqn:Hm2e; [exact I| |lia].
  assert (Zpos m2 * 2 ^ (e2 - ex) <= k * 2 ^ J) as Hfin by nia.
  destruct (e2 <=? Number.emax - Number.prec) eqn:Hov; simpl; [split; [lia | exact Hfin]|].
  apply Z.leb_gt in Hov. unfold Number.emax, Number.prec in Hov.
  assert (2 ^ (e2 - ex) < 2 ^ (53 + J)) as Hpw.
  { rewrite (Z.pow_add_r 2 53 J) by lia. pose proof (pow2_pos J HJ).
    pose proof (pow2_pos (e2 - ex) ltac:(lia)). nia. }
  apply pow2_lt_exp in Hpw; lia.
Qed.

Lemma below_atMost (K base : Z) (x : spec_float) :
  base <= 0 -> below (K * 2 ^ (- base)) base x -> atMost K x.
Proof.
  intros Hb. destruct x as [[]|[]| |[] m e]; unfold below, atMost; try tauto.
  intros [He Hv]. destruct (e <? 0) eqn:Hneg.
  - apply Z.ltb_lt in Hneg.
    pose proof (pow2_split (- base) (e - base) ltac:(lia)) as Hs.
    replace (- base - (e - base)) with (- e) in Hs by lia.
    rewrite Hs, Z.mul_assoc in Hv.
    apply (Z.mul_le_mono_pos_r _ _ (2 ^ (e - base))); [apply pow2_pos; lia | exact Hv].
  - apply Z.ltb_ge in Hneg.
    assert (2 ^ (e - base) = 2 ^ e * 2 ^ (- base)) as Hs.
    { rewrite <- Z.pow_add_r by lia. f_equal; lia. }
    rewrite Hs, Z.mul_assoc in Hv.
    apply (Z.mul_le_mono_pos_r _ _ (2 ^ (- base))); [apply pow2_pos; lia | exact Hv].
Qed.

(** Division of a smaller by a larger positive number gives at most 1. *)
Lemma SFdiv_atMost_1 (mx my : positive) (ex ey : Z) :
  ex <= ey -> Zpos mx <= Zpos my * 2 ^ (ey - ex) ->
  atMost 1 (SFdiv Number.prec Number.emax (S754_finite false mx ex) (S754_finite false my ey)).
Proof.
  intros He Hle. unfold SFdiv, SFdiv_core_binary.
  set (e' := Z.min (fexp Number.prec Number.emax (Zdigits2 (Zpos mx) + ex - (Zdigits2 (Zpos my) + ey)))
                   (ex - ey)).
  assert (e' <= ex - ey) as He' by apply Z.le_min_r.
  set (s := ex - ey - e').
  assert (0 <= s) as Hs by lia.
  set (m' := match s with Zpos _ => Z.shiftl (Zpos mx) s | 0 => Zpos mx | Zneg _ => 0 end).
  assert (m' = Zpos mx * 2 ^ s) as Hm'.
  { unfold m'. destruct s as [|p|p] eqn:Es; [simpl; lia | | lia].
    now rewrite Z.shiftl_mul_pow2. }
  pose proof (Z_div_mod m' (Zpos my) ltac:(lia)) as Hdm.
  destruct (Z.div_eucl m' (Zpos my)) as [q r]. destruct Hdm as [Hq Hr].
  simpl xorb.
  pose proof (pow2_pos s Hs) as Hs2.
  pose proof (pow2_pos (ey - ex) ltac:(lia)) as Hd2.
  assert (2 ^ (- e') = 2 ^ (ey - ex) * 2 ^ s) as Hsplit.
  { rewrite <- Z.pow_add_r by lia. f_equal; unfold s; lia. }
  assert (0 <= q) as Hq0 by nia.
  apply (below_atMost 1 e'); [lia|].
  apply (binary_round_aux_below q e' (new_location (Zpos my) r) 1 (- e')); try lia.
  - rewrite Hsplit. nia.
  - intros Hloc. rewrite Hsplit.
    assert (r <> 0) by (intros ->; apply Hloc; unfold new_location, new_location_even,
      new_location_odd; now destruct (Z.even (Zpos my))).
    nia.
Qed.

Lemma SFmul_atMost (K : Z) (mk : positive) (ek : Z) (x : spec_float) :
  0 < K < 2 ^ 53 -> -900 <= ek <= 0 -> Zpos mk = K * 2 ^ (- ek) ->
  atMost 1 x ->
  atMost K (SFmul Number.prec Number.emax x (S754_finite false mk ek)).
Proof.
  intros HK Hek Hmk Hx. destruct x as [[]|[]| |[] m e]; unfold atMost in Hx; try tauto; try exact I.
  unfold SFmul. simpl xorb.
  assert (e <= 0 /\ Zpos m <= 2 ^ (- e)) as [He Hm].
  { destruct (e <? 0) eqn:Hneg; [apply Z.ltb_lt in Hneg; lia|].
    apply Z.ltb_ge in Hneg. pose proof (pow2_pos e Hneg).
    assert (e = 0); [|subst e; change (2 ^ 0) with 1 in Hx; change (2 ^ (- 0)) with 1; lia].
    destruct (Z.eq_dec e 0) as [|Hne]; [assumption|].
    assert (2 ^ 1 <= 2 ^ e) by (apply Z.pow_le_mono_r; lia). change (2 ^ 1) with 2 in *. nia. }
  pose proof (pow2_pos (- e) ltac:(lia)) as He2.
  pose proof (pow2_pos (- ek) ltac:(lia)) as Hek2.
  assert (2 ^ (- (e + ek)) = 2 ^ (- e) * 2 ^ (- ek)) as Hsplit.
  { rewrite <- Z.pow_add_r by lia. f_equal; lia. }
  apply (below_atMost K (e + ek)); [lia|].
  apply (binary_round_aux_below (Zpos (m * mk)) (e + ek) loc_Exact K (- (e + ek)));
    try lia.
  - rewrite Pos2Z.inj_mul, Hmk, Hsplit. nia.
  - intros H. now contradiction H.
Qed.

Lemma iter_xO_spec (m k : positive) :
  Zpos (Pos.iter xO m k) = Zpos m * 2 ^ Zpos k /\
  Zpos (digits2_pos (Pos.iter xO m k)) = Zpos (digits2_pos m) + Zpos k.
Proof.
  induction k as [|k [IHv IHd]] using Pos.peano_ind.
  - simpl Pos.iter. simpl digits2_pos. change (2 ^ 1) with 2. lia.
  - rewrite Pos.iter_succ. simpl digits2_pos.
    rewrite (Pos2Z.inj_xO (Pos.iter xO m k)), IHv, !Pos2Z.inj_succ, IHd.
    rewrite Z.pow_succ_r by lia. lia.
Qed.

Lemma binary_round_aux_canonical (m : positive) (e : Z) :
  Zpos (digits2_pos m) = 53 -> -1074 <= e <= 971 ->
  binary_round_aux Number.prec Number.emax false (Zpos m) e loc_Exact = S754_finite false m e.
Proof.
  intros Hd He.
  assert (fexp Number.prec Number.emax (53 + e) - e = 0) as Hf.
  { unfold fexp, SpecFloat.emin, Number.prec, Number.emax. lia. }
  unfold binary_round_aux, shr_fexp. simpl Zdigits2. rewrite Hd, Hf.
  cbn [shr shr_record_of_loc shr_m loc_of_shr_record round_nearest_even Zdigits2].
  rewrite Hd, Hf. cbn [shr shr_record_of_loc shr_m]. unfold Number.emax, Number.prec.
  destruct (e <=? 1024 - 53) eqn:H; [reflexivity | apply Z.leb_gt in H; lia].
Qed.

(** An integer below [2^53] is a number, exactly. *)
Lemma ofZ_pos (n : Z) :
  0 < n < 2 ^ 53 ->
  exists m e, Number.ofZ n = S754_finite false m e /\
              e <= 0 /\ Zpos m = n * 2 ^ (- e) /\ 2 ^ 52 <= Zpos m < 2 ^ 53.
Proof.
  intros Hn. destruct n as [|p|p]; try lia.
  unfold Number.ofZ, binary_normalize, binary_round.
  destruct (digits2_pos_bounds p) as [Hlo Hhi].
  set (d := Zpos (digits2_pos p)) in *.
  assert (1 <= d <= 53) as Hd.
  { split; [unfold d; lia|].
    assert (2 ^ (d - 1) < 2 ^ 53) as H by lia. apply pow2_lt_exp in H; unfold d in *; lia. }
  assert (fexp Number.prec Number.emax (d + 0) = d - 53) as ->.
  { unfold fexp, SpecFloat.emin, Number.prec, Number.emax. lia. }
  unfold shl_align. replace (d - 53 - 0) with (d - 53) by lia.
  destruct (d - 53) as [|k|k] eqn:Hk; try lia.
  - exists p, 0. rewrite binary_round_aux_canonical by (fold d; lia).
    assert (d = 53) as Hd53 by lia. rewrite Hd53 in Hlo, Hhi.
    change (2 ^ (- 0)) with 1. repeat split; lia.
  - destruct (iter_xO_spec p k) as [Hv Hdig]. fold d in Hdig.
    exists (Pos.iter xO p k), (Zneg k).
    rewrite binary_round_aux_canonical by lia.
    change (- Zneg k) with (Zpos k).
    assert (d - 1 + Zpos k = 52) as E1 by lia.
    assert (d + Zpos k = 53) as E2 by lia.
    pose proof (Z.pow_add_r 2 (d - 1) (Zpos k) ltac:(lia) ltac:(lia)) as P1.
    pose proof (Z.pow_add_r 2 d (Zpos k) ltac:(lia) ltac:(lia)) as P2.
    rewrite E1 in P1. rewrite E2 in P2.
    pose proof (pow2_pos (Zpos k) ltac:(lia)).
    repeat split; try lia; rewrite Hv; nia.
Qed.

Lemma round_atMost (K : Z) (x : spec_float) :
  0 <= K -> atMost K x -> exists z, 0 <= z <= K /\ Number.round x = Number.ofZ z.
Proof.
  intros HK. destruct x as [[]|[]| |[] m e]; unfold atMost; try tauto.
  - intros _. exists 0. split; [lia | reflexivity].
  - intros H. exists (Number.roundHalfUp (Zpos m) e). split; [|reflexivity].
    unfold Number.roundHalfUp. destruct e as [|p|p].
    + change (0 <? 0) with false in H. cbv iota in H. change (2 ^ 0) with 1 in *. lia.
    + change (Zpos p <? 0) with false in H. cbv iota in H.
      pose proof (pow2_pos (Zpos p) ltac:(lia)). nia.
    + change (Zneg p <? 0) with true in H. cbv iota in H.
      change (- Zneg p) with (Zpos p) in H.
      pose proof (pow2_pos (Zpos p) ltac:(lia)) as Hp.
      rewrite Z.pow_add_r by lia. change (2 ^ 1) with 2.
      split.
      * apply Z.div_pos; lia.
      * assert ((2 * Zpos m + 2 ^ Zpos p) / (2 ^ Zpos p * 2) < K + 1); [|lia].
        apply Z.div_lt_upper_bound; [lia|]. nia.
Qed.

Lemma percentage_bounded (c t : Z) :
  0 <= c <= t -> 0 < t < 2 ^ 53 ->
  exists z, 0 <= z <= 100 /\
    Number.round (SFmul Number.prec Number.emax (SFdiv Number.prec Number.emax (Number.ofZ c) (Number.ofZ t)) (Number.ofZ 100)) = Number.ofZ z.
Proof.
  intros Hc Ht. apply round_atMost; [lia|].
  apply (SFmul_atMost 100 (100 * 2 ^ 46) (-46)); [lia | lia | reflexivity |].
  destruct (ofZ_pos t Ht) as (mt & et & -> & Het & Hmt & Hrt).
  destruct (Z.eq_dec c 0) as [->|Hc0]; [exact I|].
  destruct (ofZ_pos c ltac:(lia)) as (mc & ec & -> & Hec & Hmc & Hrc).
  pose proof (pow2_pos (- ec) ltac:(lia)) as Pc.
  pose proof (pow2_pos (- et) ltac:(lia)) as Pt.
  assert (ec <= et) as Hle.
  { destruct (Z_le_gt_dec ec et) as [|Hgt]; [assumption|exfalso].
    pose proof (pow2_split (- et) (- ec) ltac:(lia)) as Hs.
    assert (2 ^ 1 <= 2 ^ (- et - - ec)) as H1 by (apply Z.pow_le_mono_r; lia).
    change (2 ^ 1) with 2 in H1. nia. }
  apply SFdiv_atMost_1; [assumption|].
  pose proof (pow2_split (- ec) (- et) ltac:(lia)) as Hs.
  replace (- ec - - et) with (et - ec) in Hs by lia.
  pose proof (pow2_pos (et - ec) ltac:(lia)).
  rewrite Hmc, Hmt, Hs. nia.
Qed.

End Binary64.

(** ** Completion percentage *)

Example percentage_one_third :
  completionPercentage (sample 1 2) = Number.ofNat 33.
Proof. vm_compute. reflexivity. Qed.

Example percentage_one_eighth :
  completionPercentage (sample 1 7) = Number.ofNat 13.
Proof. vm_compute. reflexivity. Qed.

(** [29 / 200 * 100] is [14.499999999999998] in binary64, not [14.5]. *)
Example percentage_29_of_200 :
  completionPercentage (sample 29 171) = Number.ofNat 14.
Proof. vm_compute. reflexivity. Qed.

Example percentage_all :
  completionPercentage (sample 7 0) = Number.ofNat 100.
Proof. vm_compute. reflexivity. Qed.

(** C10.  The completion percentage is guarded: it is 0 for an empty
    collection, and otherwise [Math.round] of [(completed / total) * 100]
    with a divisor that is a positive finite number, so no division by
    zero is evaluated; the result is an integer between 0 and 100.  The
    bound is shown for collections below [2^53] records, where a length is
    an exact number (an array holds fewer than [2^32]). *)
Theorem completionPercentage_guarded (s : State) :
  (tasks s = [] -> completionPercentage s = Number.ofNat 0) /\
  (tasks s <> [] ->
   completionPercentage s
   = Number.round
       (Number.mul
          (Number.div (Number.ofNat (Stats.completed (stats s)))
                      (Number.ofNat (Stats.total (stats s))))
          (Number.ofNat 100))) /\
  ((Z.of_nat (length (tasks s)) < 2 ^ 53)%Z ->
   (tasks s <> [] ->
    exists m e, Number.ofNat (Stats.total (stats s)) = S754_finite false m e) /\
   exists p : nat, p <= 100 /\ completionPercentage s = Number.ofNat p).
Proof.
  unfold completionPercentage. cbn [stats Stats.total Stats.completed].
  split; [|split; [|split]].
  - intros ->. reflexivity.
  - intros Hne. destruct (tasks s); [congruence | reflexivity].
  - intros Hne. destruct (tasks s) as [|t l] eqn:Hts; [congruence|].
    destruct (ofZ_pos (Z.of_nat (length (t :: l)))) as (m & e & Hm & _).
    { split; [simpl length; lia | assumption]. }
    now exists m, e.
  - destruct (tasks s) as [|t l] eqn:Hts.
    + exists 0. split; [lia | reflexivity].
    + change (0 <? length (t :: l))%nat with true. cbv iota.
      pose proof (filter_length_split (fun t => Task.completed t) (t :: l)) as Hsplit.
      destruct (percentage_bounded
                  (Z.of_nat (length (List.filter (fun t => Task.completed t) (t :: l))))
                  (Z.of_nat (length (t :: l)))) as (z & Hz & Hpz).
      { split; [apply Nat2Z.is_nonneg|]. apply Nat2Z.inj_le. rewrite <- Hsplit.
        apply Nat.le_add_l. }
      { split; [simpl length; lia | assumption]. }
      exists (Z.to_nat z). split; [lia|].
      unfold Number.ofNat at 4. rewrite Z2Nat.id by lia. exact Hpz.
Qed.

Lemma completionPercentage_guarded_witness :
  completionPercentage initialState = Number.ofNat 0 /\
  completionPercentage (sample 1 2)
  = Number.round (Number.mul (Number.div (Number.ofNat 1) (Number.ofNat 3)) (Number.ofNat 100)) /\
  exists p : nat, p <= 100 /\ completionPercentage (sample 29 171) = Number.ofNat p.
Proof.
  split; [|split].
  - apply (proj1 (completionPercentage_guarded initialState)). reflexivity.
  - apply (proj1 (proj2 (completionPercentage_guarded (sample 1 2)))). discriminate.
  - apply (proj2 (proj2 (completionPercentage_guarded (sample 29 171)))). reflexivity.
Defined.

(* ================================================================== *)
(** * Further properties of the component *)

(** ** What the handlers do on the paths the claims leave out *)

Lemma run_view_cells (t : list Effect) (s : State) :
  searchQuery (run s t) = searchQuery s /\
  filterStatus (run s t) = filterStatus s /\
  currentTheme (run s t) = currentTheme s /\
  showStats (run s t) = showStats s.
Proof.
  unfold run. revert s. induction t as [|e t IH]; intros s; simpl; [tauto|].
  destruct (IH (applyEffect s e)) as (H1 & H2 & H3 & H4).
  rewrite H1, H2, H3, H4. destruct e; simpl; tauto.
Qed.

Lemma addTask_trace_failed (s : State) (response : Response Task.t) :
  Js.trim (title s) <> "" -> Js.trim (description s) <> "" ->
  parsed response = None ->
  exists err,
    trace (addTask s response)
    = [PreventDefault; SetLoading true;
       Fetch (POST_tasks (title s) (description s) (priority s));
       SetError "❌ Failed to add task";
       ConsoleError "Error adding task:" err; SetLoading false].
Proof.
  intros Ht Hd Hr. unfold addTask. rewrite (addTask_guard_passed s Ht Hd).
  destruct response as [|[] [u|]]; simpl in Hr; try discriminate;
    eexists; reflexivity.
Qed.

(** X1.  A load that succeeds replaces the whole collection by the list
    the server sent, whatever was there before, clears the error and the
    loading flag, and leaves the form inputs as they were. *)
Theorem load_success_replaces (s : State) (response : Response (list Task.t))
    (data : list Task.t) :
  parsed response = Some data ->
  tasks (load s response) = data /\
  error (load s response) = "" /\
  loading (load s response) = false /\
  title (load s response) = title s /\
  description (load s response) = description s /\
  priority (load s response) = priority s.
Proof.
  intros Hr. destruct response as [|[] [d|]]; simpl in Hr; try discriminate.
  injection Hr as ->. unfold load. rewrite fetchTasks_trace_ok. repeat split.
Qed.

Lemma load_success_replaces_witness :
  let a := Task.mk 1 "A" "a" "high" false "t0" in
  let b := Task.mk 2 "B" "b" "low" true "t1" in
  let s := mkState [a] "x" "y" "low" false "❌ Failed to add task" "" "all" "classic" true in
  tasks (load s (HttpResponse true (Some [b]))) = [b] /\
  error (load s (HttpResponse true (Some [b]))) = "" /\
  loading (load s (HttpResponse true (Some [b]))) = false /\
  title (load s (HttpResponse true (Some [b]))) = "x" /\
  description (load s (HttpResponse true (Some [b]))) = "y" /\
  priority (load s (HttpResponse true (Some [b]))) = "low".
Proof.
  intros a b s. apply (load_success_replaces s (HttpResponse true (Some [b])) [b]).
  reflexivity.
Defined.

(** X2.  When the inputs are not blank and the create request fails (the
    fetch is rejected, the status is not a success, or the body does not
    parse), exactly one POST went out, the error is the add-failure text,
    and the collection and the three inputs are as before, so that the
    user can submit again; the loading flag is cleared. *)
Theorem addTask_failure_keeps_inputs (s : State) (response : Response Task.t) :
  Js.trim (title s) <> "" ->
  Js.trim (description s) <> "" ->
  parsed response = None ->
  requests (trace (addTask s response))
    = [POST_tasks (title s) (description s) (priority s)] /\
  error (create s response) = "❌ Failed to add task" /\
  tasks (create s response) = tasks s /\
  title (create s response) = title s /\
  description (create s response) = description s /\
  priority (create s response) = priority s /\
  loading (create s response) = false.
Proof.
  intros Ht Hd Hr. unfold create.
  destruct (addTask_trace_failed s response Ht Hd Hr) as [err ->].
  repeat split.
Qed.

Lemma addTask_failure_keeps_inputs_witness :
  let s := mkState [Task.mk 1 "A" "a" "low" false "t0"] "Buy milk" "2 litres" "high"
                   false "" "" "all" "classic" true in
  error (create s (HttpResponse false None)) = "❌ Failed to add task" /\
  tasks (create s (HttpResponse false None)) = tasks s /\
  title (create s (HttpResponse false None)) = "Buy milk" /\
  description (create s (HttpResponse false None)) = "2 litres" /\
  priority (create s (HttpResponse false None)) = "high" /\
  loading (create s (HttpResponse false None)) = false.
Proof.
  intros s.
  apply (addTask_failure_keeps_inputs s (HttpResponse false None));
    [discriminate | discriminate | reflexivity].
Defined.

(** X3.  Once the inputs pass the blank check, the create handler sets the
    loading flag before it sends the request and clears it as its last
    call, whatever the response; nothing in between touches the flag or
    sends a second request. *)
Theorem addTask_loading_bracket (s : State) (response : Response Task.t) :
  Js.trim (title s) <> "" ->
  Js.trim (description s) <> "" ->
  exists mid,
    trace (addTask s response)
      = [PreventDefault; SetLoading true;
         Fetch (POST_tasks (title s) (description s) (priority s))]
        ++ mid ++ [SetLoading false] /\
    Forall (fun e => match e with SetLoading _ | Fetch _ => False | _ => True end) mid.
Proof.
  intros Ht Hd. destruct (parsed response) as [newTask|] eqn:Hr.
  - destruct response as [|[] [u|]]; simpl in Hr; try discriminate.
    injection Hr as ->. rewrite (addTask_trace_ok s newTask Ht Hd).
    eexists [_; _; _; _; _]. split; [reflexivity|]. repeat constructor.
  - destruct (addTask_trace_failed s response Ht Hd Hr) as [err ->].
    eexists [_; _]. split; [reflexivity|]. repeat constructor.
Qed.

Lemma addTask_loading_bracket_witness :
  let s := mkState [] "Buy milk" "2 litres" "high" false "" "" "all" "classic" true in
  exists mid,
    trace (addTask s NetworkError)
      = [PreventDefault; SetLoading true; Fetch (POST_tasks "Buy milk" "2 litres" "high")]
        ++ mid ++ [SetLoading false] /\
    Forall (fun e => match e with SetLoading _ | Fetch _ => False | _ => True end) mid.
Proof.
  intros s. apply (addTask_loading_bracket s NetworkError); discriminate.
Defined.

(** X4.  A toggle or a delete that fails sets its own error text and
    changes nothing else: the collection, the form inputs and the loading
    flag are as before. *)
Theorem toggle_delete_failure (s : State) (id : Z)
    (rt : Response Task.t) (rd : Response unit) :
  (parsed rt = None ->
   toggle s id rt = applyEffect s (SetError "❌ Failed to update task")) /\
  (accepted rd = false ->
   delete s id rd = applyEffect s (SetError "❌ Failed to delete task")).
Proof.
  split; intros Hr.
  - unfold toggle. destruct (toggleTask_trace_failed s id rt Hr) as [err ->].
    reflexivity.
  - unfold delete. destruct (deleteTask_trace_failed s id rd Hr) as [err ->].
    reflexivity.
Qed.

Lemma toggle_delete_failure_witness :
  let a := Task.mk 1 "A" "a" "high" false "t0" in
  let s := mkState [a] "x" "y" "low" false "" "q" "active" "fire" false in
  toggle s 1 NetworkError
  = mkState [a] "x" "y" "low" false "❌ Failed to update task" "q" "active" "fire" false /\
  delete s 1 (HttpResponse false (Some tt))
  = mkState [a] "x" "y" "low" false "❌ Failed to delete task" "q" "active" "fire" false.
Proof.
  intros a s. split.
  - apply (proj1 (toggle_delete_failure s 1 NetworkError NetworkError)). reflexivity.
  - apply (proj2 (toggle_delete_failure s 1 NetworkError (HttpResponse false (Some tt)))).
    reflexivity.
Defined.

(** X5.  No handler, on any response, changes the search query, the status
    filter, the theme or the statistics switch; toggle and delete also
    leave the form inputs and the loading flag alone. *)
Theorem handlers_frame (s : State) (id : Z)
    (rl : Response (list Task.t)) (rt : Response Task.t) (rd : Response unit) :
  let view s' := (searchQuery s', filterStatus s', currentTheme s', showStats s') in
  let form s' := (title s', description s', priority s', loading s') in
  view (load s rl) = view s /\
  view (create s rt) = view s /\
  view (toggle s id rt) = view s /\
  view (delete s id rd) = view s /\
  form (toggle s id rt) = form s /\
  form (delete s id rd) = form s.
Proof.
  intros view form. unfold view, form, load, create, toggle, delete.
  assert (forall t, view (run s t) = view s) as Hview.
  { intros t. unfold view. destruct (run_view_cells t s) as (-> & -> & -> & ->).
    reflexivity. }
  unfold view in Hview. rewrite !Hview. repeat split.
  - destruct rt as [|[] [u|]]; reflexivity.
  - destruct rd as [|[] body]; reflexivity.
Qed.

(** X6.  Every handler sends one request per call and no more: a load one
    GET, a toggle one PUT and a delete one DELETE for the id it was given,
    whether the response is a success or not; a create sends one POST or,
    when an input is blank, none. *)
Theorem one_request_per_call (s : State) (id : Z)
    (rl : Response (list Task.t)) (rt : Response Task.t) (rd : Response unit) :
  requests (trace (fetchTasks rl)) = [GET_tasks] /\
  requests (trace (toggleTask s id rt)) = [PUT_task id] /\
  requests (trace (deleteTask s id rd)) = [DELETE_task id] /\
  (requests (trace (addTask s rt)) = [] \/
   requests (trace (addTask s rt)) = [POST_tasks (title s) (description s) (priority s)]).
Proof.
  split; [|split; [|split]].
  - destruct rl as [|[] [d|]]; reflexivity.
  - destruct rt as [|[] [u|]]; reflexivity.
  - destruct rd as [|[] body]; reflexivity.
  - unfold addTask.
    destruct (negb (Js.truthy (Js.trim (title s))) ||
              negb (Js.truthy (Js.trim (description s)))); [left; reflexivity|].
    right. destruct rt as [|[] [u|]]; reflexivity.
Qed.

(** ** Identifiers: missing ids, round trips and uniqueness *)

Lemma state_eta (s : State) :
  mkState (tasks s) (title s) (description s) (priority s) (loading s) (error s)
          (searchQuery s) (filterStatus s) (currentTheme s) (showStats s) = s.
Proof. now destruct s. Qed.

Lemma toggle_tasks_ok (s : State) (id : Z) (response : Response Task.t) (u : Task.t) :
  parsed response = Some u ->
  toggle s id response
  = applyEffect s (SetTasks (map (fun task => if (Task.id task =? id)%Z then u else task)
                                 (tasks s))).
Proof.
  intros Hr. destruct response as [|[] [u'|]]; simpl in Hr; try discriminate.
  injection Hr as ->. reflexivity.
Qed.

Lemma delete_tasks_ok {A} (s : State) (id : Z) (response : Response A) :
  accepted response = true ->
  tasks (delete s id response)
  = List.filter (fun task => negb (Task.id task =? id)%Z) (tasks s).
Proof.
  intros Hr. unfold delete. now rewrite (deleteTask_trace_ok s id response Hr).
Qed.

Lemma create_tasks_ok (s : State) (response : Response Task.t) (newTask : Task.t) :
  Js.trim (title s) <> "" -> Js.trim (description s) <> "" ->
  parsed response = Some newTask ->
  tasks (create s response) = newTask :: tasks s.
Proof.
  intros Ht Hd Hr. destruct response as [|[] [u|]]; simpl in Hr; try discriminate.
  injection Hr as ->. unfold create. now rewrite (addTask_trace_ok s newTask Ht Hd).
Qed.

Lemma replace_absent (id : Z) (u : Task.t) (l : list Task.t) :
  Forall (fun task => Task.id task <> id) l ->
  map (fun task => if (Task.id task =? id)%Z then u else task) l = l.
Proof.
  induction 1 as [|t l Ht _ IH]; simpl; [reflexivity|].
  apply Z.eqb_neq in Ht. now rewrite Ht, IH.
Qed.

Lemma remove_absent (id : Z) (l : list Task.t) :
  Forall (fun task => Task.id task <> id) l ->
  List.filter (fun task => negb (Task.id task =? id)%Z) l = l.
Proof.
  intros H. apply filter_fixed. eapply Forall_impl; [exact H|].
  intros t Ht. simpl in Ht. apply negb_true_iff. now apply Z.eqb_neq.
Qed.

Lemma remove_ids_sublist (id : Z) (l : list Task.t) :
  map Task.id (List.filter (fun task => negb (Task.id task =? id)%Z) l)
  `sublist_of` map Task.id l.
Proof.
  induction l as [|t l IH]; simpl; [constructor|].
  destruct (negb (Task.id t =? id)%Z); simpl;
    [apply sublist_skip | apply sublist_cons]; exact IH.
Qed.

(** X7.  A toggle for an id that no record of the collection has, answered
    with a success, changes nothing: the record the server sent is not
    added, and the state is the one before the call. *)
Theorem toggle_unknown_id (s : State) (id : Z) (response : Response Task.t)
    (updatedTask : Task.t) :
  parsed response = Some updatedTask ->
  Forall (fun task => Task.id task <> id) (tasks s) ->
  toggle s id response = s.
Proof.
  intros Hr Habs. rewrite (toggle_tasks_ok s id response updatedTask Hr).
  rewrite (replace_absent id updatedTask (tasks s) Habs). simpl. apply state_eta.
Qed.

Lemma toggle_unknown_id_witness :
  let a := Task.mk 1 "A" "a" "high" false "t0" in
  let s := mkState [a] "" "" "medium" false "" "" "all" "classic" true in
  toggle s 5 (HttpResponse true (Some (Task.mk 5 "E" "e" "low" true "t5"))) = s.
Proof.
  intros a s.
  apply (toggle_unknown_id s 5 _ (Task.mk 5 "E" "e" "low" true "t5")).
  - reflexivity.
  - repeat constructor; discriminate.
Defined.

(** X8.  A delete for an id that no record has, answered with a success,
    keeps the collection and clears the error. *)
Theorem delete_unknown_id {A} (s : State) (id : Z) (response : Response A) :
  accepted response = true ->
  Forall (fun task => Task.id task <> id) (tasks s) ->
  delete s id response = applyEffect s (SetError "").
Proof.
  intros Hr Habs. unfold delete. rewrite (deleteTask_trace_ok s id response Hr).
  simpl. rewrite (remove_absent id (tasks s) Habs). reflexivity.
Qed.

Lemma delete_unknown_id_witness :
  let a := Task.mk 1 "A" "a" "high" false "t0" in
  let s := mkState [a] "" "" "medium" false "❌ Failed to delete task" "" "all" "classic" true in
  delete s 5 (HttpResponse true (Some tt))
  = mkState [a] "" "" "medium" false "" "" "all" "classic" true.
Proof.
  intros a s. apply (delete_unknown_id s 5 (HttpResponse true (Some tt))).
  - reflexivity.
  - repeat constructor; discriminate.
Defined.

(** X9.  Creating a record and then deleting the id the server gave it
    brings the collection back, provided that id was not already in the
    collection. *)
Theorem create_then_delete (s : State) (rc : Response Task.t) (rd : Response unit)
    (newTask : Task.t) :
  Js.trim (title s) <> "" ->
  Js.trim (description s) <> "" ->
  parsed rc = Some newTask ->
  accepted rd = true ->
  Forall (fun task => Task.id task <> Task.id newTask) (tasks s) ->
  tasks (delete (create s rc) (Task.id newTask) rd) = tasks s.
Proof.
  intros Ht Hd Hrc Hrd Hfresh.
  rewrite (delete_tasks_ok _ _ rd Hrd), (create_tasks_ok s rc newTask Ht Hd Hrc).
  simpl. rewrite Z.eqb_refl. simpl. now apply remove_absent.
Qed.

Lemma create_then_delete_witness :
  let a := Task.mk 1 "A" "a" "high" false "t0" in
  let n := Task.mk 2 "Buy milk" "2 litres" "low" false "t1" in
  let s := mkState [a] "Buy milk" "2 litres" "low" false "" "" "all" "classic" true in
  tasks (delete (create s (HttpResponse true (Some n))) 2 (HttpResponse true (Some tt)))
  = [a].
Proof.
  intros a n s.
  apply (create_then_delete s (HttpResponse true (Some n)) (HttpResponse true (Some tt)) n).
  - discriminate.
  - discriminate.
  - reflexivity.
  - reflexivity.
  - repeat constructor; discriminate.
Defined.

(** X10.  Deleting the same id a second time changes nothing further, and
    two deletes give the same collection in either order. *)
Theorem delete_idempotent_commutes (s : State) (a b : Z) (r1 r2 : Response unit) :
  accepted r1 = true -> accepted r2 = true ->
  tasks (delete (delete s a r1) a r2) = tasks (delete s a r1) /\
  tasks (delete (delete s a r1) b r2) = tasks (delete (delete s b r2) a r1).
Proof.
  intros H1 H2. rewrite !delete_tasks_ok by assumption. split.
  - apply filter_fixed.
    apply (filter_all_true (fun task => negb (Task.id task =? a)%Z)).
  - rewrite !filter_andb. apply List.filter_ext. intros t. apply andb_comm.
Qed.

Lemma delete_idempotent_commutes_witness :
  let a := Task.mk 1 "A" "a" "high" false "t0" in
  let b := Task.mk 2 "B" "b" "low" false "t1" in
  let c := Task.mk 3 "C" "c" "low" true "t2" in
  let s := mkState [a; b; c] "" "" "medium" false "" "" "all" "classic" true in
  let ok := HttpResponse true (Some tt) in
  tasks (delete (delete s 1 ok) 1 ok) = tasks (delete s 1 ok) /\
  tasks (delete (delete s 1 ok) 2 ok) = tasks (delete (delete s 2 ok) 1 ok).
Proof.
  intros a b c s ok. apply (delete_idempotent_commutes s 1 2 ok ok); reflexivity.
Defined.

(** X11.  Unique ids stay unique: a delete keeps them unique on every
    response; a toggle keeps the list of ids as it is when the server's
    record carries the id that was asked for; a create keeps them unique
    when the new record's id is not in the collection. *)
Theorem unique_ids_preserved (s : State) (id : Z)
    (rt : Response Task.t) (rd : Response unit) (u : Task.t) :
  NoDup (map Task.id (tasks s)) ->
  NoDup (map Task.id (tasks (delete s id rd))) /\
  (parsed rt = Some u -> Task.id u = id ->
   map Task.id (tasks (toggle s id rt)) = map Task.id (tasks s)) /\
  (Js.trim (title s) <> "" -> Js.trim (description s) <> "" ->
   parsed rt = Some u -> Forall (fun task => Task.id task <> Task.id u) (tasks s) ->
   NoDup (map Task.id (tasks (create s rt)))).
Proof.
  intros Hnd. split; [|split].
  - destruct (accepted rd) eqn:Hrd.
    + rewrite (delete_tasks_ok s id rd Hrd).
      eapply sublist_NoDup; [exact Hnd | apply remove_ids_sublist].
    + unfold delete. destruct (deleteTask_trace_failed s id rd Hrd) as [err ->].
      exact Hnd.
  - intros Hr Hid. rewrite (toggle_tasks_ok s id rt u Hr). simpl.
    rewrite List.map_map. apply List.map_ext_in. intros t _.
    destruct (Task.id t =? id)%Z eqn:E; [|reflexivity].
    apply Z.eqb_eq in E. congruence.
  - intros Ht Hd Hr Hfresh. rewrite (create_tasks_ok s rt u Ht Hd Hr). simpl.
    apply NoDup_cons. split; [|exact Hnd].
    intros Hin. apply list_elem_of_fmap in Hin. destruct Hin as (t & Heq & Hin).
    rewrite Forall_forall in Hfresh. apply (Hfresh t); [exact Hin | congruence].
Qed.

Lemma unique_ids_preserved_witness :
  let a := Task.mk 1 "A" "a" "high" false "t0" in
  let b := Task.mk 2 "B" "b" "low" false "t1" in
  let b' := Task.mk 2 "B" "b" "low" true "t1" in
  let n := Task.mk 3 "T" "D" "medium" false "t2" in
  let s := mkState [a; b] "T" "D" "medium" false "" "" "all" "classic" true in
  NoDup (map Task.id (tasks (delete s 2 (HttpResponse true (Some tt))))) /\
  map Task.id (tasks (toggle s 2 (HttpResponse true (Some b')))) = [1%Z; 2%Z] /\
  NoDup (map Task.id (tasks (create s (HttpResponse true (Some n))))).
Proof.
  intros a b b' n s.
  assert (NoDup (map Task.id (tasks s))) as Hnd.
  { simpl. repeat constructor; rewrite ?list_elem_of_In; simpl; intuition discriminate. }
  split; [|split].
  - apply (proj1 (unique_ids_preserved s 2 NetworkError (HttpResponse true (Some tt)) a Hnd)).
  - apply (proj1 (proj2 (unique_ids_preserved s 2 (HttpResponse true (Some b'))
                           NetworkError b' Hnd))); reflexivity.
  - apply (proj2 (proj2 (unique_ids_preserved s 2 (HttpResponse true (Some n))
                           NetworkError n Hnd))).
    + discriminate.
    + discriminate.
    + reflexivity.
    + repeat constructor; discriminate.
Defined.

(** ** Counts after an operation *)

Lemma remove_unique_length (id : Z) (l : list Task.t) :
  NoDup (map Task.id l) ->
  Exists (fun task => Task.id task = id) l ->
  S (length (List.filter (fun task => negb (Task.id task =? id)%Z) l)) = length l.
Proof.
  induction l as [|t l IH]; intros Hnd Hex; [inversion Hex|].
  simpl in Hnd. apply NoDup_cons in Hnd. destruct Hnd as [Hnotin Hnd].
  simpl. destruct (Task.id t =? id)%Z eqn:E; simpl.
  - apply Z.eqb_eq in E. f_equal. f_equal. apply remove_absent.
    apply Forall_forall. intros t' Hin Heq. apply Hnotin.
    rewrite E, <- Heq. now apply list_elem_of_fmap_2.
  - f_equal. apply IH; [exact Hnd|].
    inversion Hex as [? ? Hhd|? ? Htl]; subst; [|exact Htl].
    apply Z.eqb_neq in E. contradiction.
Qed.

(** X12.  The total shown in the statistics goes up by one on a successful
    create, is the same after a toggle on every response, and never goes up
    on a delete; when ids are unique and the id is in the collection, a
    successful delete takes it down by exactly one. *)
Theorem total_after_operations (s : State) (id : Z)
    (rt : Response Task.t) (rd : Response unit) :
  (Js.trim (title s) <> "" -> Js.trim (description s) <> "" ->
   parsed rt <> None ->
   Stats.total (stats (create s rt)) = S (Stats.total (stats s))) /\
  Stats.total (stats (toggle s id rt)) = Stats.total (stats s) /\
  Stats.total (stats (delete s id rd)) <= Stats.total (stats s) /\
  (accepted rd = true -> NoDup (map Task.id (tasks s)) ->
   Exists (fun task => Task.id task = id) (tasks s) ->
   S (Stats.total (stats (delete s id rd))) = Stats.total (stats s)).
Proof.
  unfold stats; cbn [Stats.total]. split; [|split; [|split]].
  - intros Ht Hd Hr. destruct (parsed rt) as [u|] eqn:Hp; [|congruence].
    now rewrite (create_tasks_ok s rt u Ht Hd Hp).
  - destruct (parsed rt) as [u|] eqn:Hp.
    + rewrite (toggle_tasks_ok s id rt u Hp). simpl. apply length_map.
    + unfold toggle. destruct (toggleTask_trace_failed s id rt Hp) as [err ->].
      reflexivity.
  - destruct (accepted rd) eqn:Hrd.
    + rewrite (delete_tasks_ok s id rd Hrd). apply sublist_length, filter_sublist.
    + unfold delete. destruct (deleteTask_trace_failed s id rd Hrd) as [err ->].
      simpl. lia.
  - intros Hrd Hnd Hex. rewrite (delete_tasks_ok s id rd Hrd).
    now apply remove_unique_length.
Qed.

Lemma total_after_operations_witness :
  let a := Task.mk 1 "A" "a" "high" false "t0" in
  let b := Task.mk 2 "B" "b" "low" false "t1" in
  let s := mkState [a; b] "T" "D" "medium" false "" "" "all" "classic" true in
  Stats.total (stats (create s (HttpResponse true (Some b)))) = 3 /\
  S (Stats.total (stats (delete s 2 (HttpResponse true (Some tt))))) = 2.
Proof.
  intros a b s. split.
  - apply (proj1 (total_after_operations s 2 (HttpResponse true (Some b)) NetworkError));
      discriminate.
  - apply (proj2 (proj2 (proj2 (total_after_operations s 2 NetworkError
                                   (HttpResponse true (Some tt)))))).
    + reflexivity.
    + simpl. repeat constructor; rewrite ?list_elem_of_In; simpl; intuition discriminate.
    + apply Exists_cons_tl, Exists_cons_hd. reflexivity.
Defined.

(** ** Handlers that overlap *)

Ltac interleavings :=
  repeat match goal with
         | H : Interleaved _ _ _ |- _ => inversion H; subst; clear H
         end.

(** X13.  Two handlers started from the same render both compute the new
    collection from that render's collection.  When two toggles overlap,
    the state after both responses is the state one of them alone would
    give: the other replacement is lost.  When a delete and a toggle
    overlap, the collection is the one the delete alone or the toggle
    alone would give; in the second case the deleted record is back. *)
Theorem overlapping_handlers_lose_update (s : State) (a b : Z)
    (ra rb : Response Task.t) (rd : Response unit) (ua ub : Task.t)
    (t t' : list Effect) :
  parsed ra = Some ua -> parsed rb = Some ub -> accepted rd = true ->
  Interleaved (trace (toggleTask s a ra)) (trace (toggleTask s b rb)) t ->
  Interleaved (trace (deleteTask s a rd)) (trace (toggleTask s b rb)) t' ->
  (run s t = toggle s a ra \/ run s t = toggle s b rb) /\
  (tasks (run s t') = tasks (delete s a rd) \/
   tasks (run s t') = tasks (toggle s b rb)).
Proof.
  intros Ha Hb Hd Ht Ht'.
  destruct ra as [|[] [ua'|]]; simpl in Ha; try discriminate. injection Ha as ->.
  destruct rb as [|[] [ub'|]]; simpl in Hb; try discriminate. injection Hb as ->.
  unfold toggle, delete. rewrite (deleteTask_trace_ok s a rd Hd) in *.
  rewrite !toggleTask_trace_ok in *.
  split.
  - clear Ht'. interleavings; cbn; tauto.
  - clear Ht. interleavings; cbn; tauto.
Qed.

Lemma overlapping_handlers_lose_update_witness :
  let x := Task.mk 1 "A" "a" "high" false "t0" in
  let y := Task.mk 2 "B" "b" "low" false "t1" in
  let x' := Task.mk 1 "A" "a" "high" true "t0" in
  let y' := Task.mk 2 "B" "b" "low" true "t1" in
  let s := mkState [x; y] "" "" "medium" false "" "" "all" "classic" true in
  let t := [Fetch (PUT_task 1); Fetch (PUT_task 2); SetTasks [x'; y]; SetTasks [x; y']] in
  let t' := [Fetch (DELETE_task 1); Fetch (PUT_task 2); SetTasks [y]; SetError "";
             SetTasks [x; y']] in
  (run s t = toggle s 1 (HttpResponse true (Some x')) \/
   run s t = toggle s 2 (HttpResponse true (Some y'))) /\
  (tasks (run s t') = tasks (delete s 1 (HttpResponse true (Some tt))) \/
   tasks (run s t') = tasks (toggle s 2 (HttpResponse true (Some y')))).
Proof.
  intros x y x' y' s t t'.
  apply (overlapping_handlers_lose_update s 1 2 (HttpResponse true (Some x'))
           (HttpResponse true (Some y')) (HttpResponse true (Some tt)) x' y' t t').
  - reflexivity.
  - reflexivity.
  - reflexivity.
  - apply interleaved_left, interleaved_right, interleaved_left, interleaved_right,
      interleaved_nil.
  - apply interleaved_left, interleaved_right, interleaved_left, interleaved_left,
      interleaved_right, interleaved_nil.
Defined.

(** ** The search box and the status filter *)

Lemma includes_empty (s : string) : Js.includes s "" = true.
Proof. destruct s; reflexivity. Qed.

Lemma lowerChar_idempotent (c : ascii) : Js.lowerChar (Js.lowerChar c) = Js.lowerChar c.
Proof. destruct c as [[] [] [] [] [] [] [] []]; reflexivity. Qed.

Lemma asciiLowerCase_idempotent (s : string) :
  Js.asciiLowerCase (Js.asciiLowerCase s) = Js.asciiLowerCase s.
Proof.
  induction s as [|c s IH]; simpl; [reflexivity|].
  now rewrite lowerChar_idempotent, IH.
Qed.

Lemma asciiLowerCase_append (a b : string) :
  Js.asciiLowerCase (a ++ b) = (Js.asciiLowerCase a ++ Js.asciiLowerCase b)%string.
Proof. induction a as [|c a IH]; simpl; [reflexivity | now rewrite IH]. Qed.

Lemma isAscii_append (a b : string) :
  Js.isAscii (a ++ b) = Js.isAscii a && Js.isAscii b.
Proof.
  induction a as [|c a IH]; simpl; [reflexivity|]. now rewrite IH, andb_assoc.
Qed.

Lemma toLowerCase_empty : toLowerCase "" = "".
Proof. now rewrite toLowerCase_ascii. Qed.

Lemma string_append_assoc (a b c : string) :
  ((a ++ b) ++ c = a ++ (b ++ c))%string.
Proof. induction a as [|x a IH]; simpl; [reflexivity | now rewrite IH]. Qed.

Lemma substring_trans (p q s : string) : substring p q -> substring q s -> substring p s.
Proof.
  intros (a & b & ->) (c & d & ->). exists (c ++ a)%string, (b ++ d)%string.
  now rewrite !string_append_assoc.
Qed.

Lemma filter_sublist_mono {A} (f g : A -> bool) (l : list A) :
  (forall x, f x = true -> g x = true) ->
  List.filter f l `sublist_of` List.filter g l.
Proof.
  intros Hfg. induction l as [|x l IH]; simpl; [constructor|].
  destruct (f x) eqn:Ef.
  - rewrite (Hfg x Ef). now apply sublist_skip.
  - destruct (g x); [apply sublist_cons|]; exact IH.
Qed.

Lemma filter_partition_length {A} (f c : A -> bool) (l : list A) :
  length (List.filter f l)
  = length (List.filter (fun x => f x && negb (c x)) l) +
    length (List.filter (fun x => f x && c x) l).
Proof.
  induction l as [|x l IH]; simpl; [reflexivity|].
  destruct (f x), (c x); simpl; lia.
Qed.

Lemma no_filter_shows_all_aux (s : State) :
  searchQuery s = "" -> filterStatus s = "all" -> filteredTasks s = tasks s.
Proof.
  intros Hq Hst. unfold filteredTasks. apply filter_fixed, Forall_forall.
  intros t _. unfold matchesSearch, matchesFilter.
  rewrite Hq, Hst, toLowerCase_empty. simpl. now rewrite includes_empty.
Qed.

(** X14.  With an empty search box the status filter alone decides:
    'all' shows the whole collection, 'active' the records that are not
    completed and 'completed' those that are, each in the order of the
    collection. *)
Theorem empty_query_shows_by_status (s : State) :
  searchQuery s = "" ->
  (filterStatus s = "all" -> filteredTasks s = tasks s) /\
  (filterStatus s = "active" ->
   filteredTasks s = List.filter (fun t => negb (Task.completed t)) (tasks s)) /\
  (filterStatus s = "completed" ->
   filteredTasks s = List.filter (fun t => Task.completed t) (tasks s)).
Proof.
  intros Hq. unfold filteredTasks, matchesSearch, matchesFilter.
  rewrite Hq, toLowerCase_empty. split; [|split]; intros ->.
  - apply filter_fixed, Forall_forall. intros t _. simpl. now rewrite includes_empty.
  - apply List.filter_ext. intros t. simpl. rewrite includes_empty.
    now destruct (Task.completed t).
  - apply List.filter_ext. intros t. simpl. rewrite includes_empty.
    now destruct (Task.completed t).
Qed.

(** X15.  For any query, the records shown under 'active' and under
    'completed' together are as many as those shown under 'all'; with an
    empty search box their numbers are the active and the completed count
    of the statistics; and the list never shows more records than the
    total. *)
Theorem status_filter_counts (s : State) :
  length (filteredTasks (setFilterStatus "all" s))
  = length (filteredTasks (setFilterStatus "active" s)) +
    length (filteredTasks (setFilterStatus "completed" s)) /\
  (searchQuery s = "" ->
   length (filteredTasks (setFilterStatus "active" s)) = Stats.active (stats s) /\
   length (filteredTasks (setFilterStatus "completed" s)) = Stats.completed (stats s)) /\
  length (filteredTasks s) <= Stats.total (stats s).
Proof.
  unfold filteredTasks, stats, matchesFilter, matchesSearch, setFilterStatus.
  cbn [tasks searchQuery filterStatus Stats.active Stats.completed Stats.total].
  split; [|split].
  - rewrite (filter_partition_length _ (fun t => Task.completed t)).
    f_equal; f_equal; apply List.filter_ext; intros t; simpl;
      rewrite ?andb_true_r, ?orb_false_r; reflexivity.
  - intros ->. rewrite toLowerCase_empty.
    split; f_equal; apply List.filter_ext; intros t; simpl;
      rewrite includes_empty; now destruct (Task.completed t).
  - apply sublist_length, filter_sublist.
Qed.

(** X16.  The search does not depend on the case of the query: two
    queries that agree once lower-cased show the same records, and so do
    a query and its lower-cased form. *)
Theorem search_ignores_query_case (s : State) (q1 q2 : string) :
  (toLowerCase q1 = toLowerCase q2 ->
   filteredTasks (setSearchQuery q1 s) = filteredTasks (setSearchQuery q2 s)) /\
  filteredTasks (setSearchQuery (toLowerCase q1) s)
  = filteredTasks (setSearchQuery q1 s).
Proof.
  assert (forall a b, toLowerCase a = toLowerCase b ->
            filteredTasks (setSearchQuery a s) = filteredTasks (setSearchQuery b s)) as H.
  { intros a b Hab. unfold filteredTasks, matchesSearch, matchesFilter, setSearchQuery.
    cbn [tasks searchQuery filterStatus]. now rewrite Hab. }
  split; [apply H|]. apply H, toLowerCase_idempotent.
Qed.

(** X17.  Typing more never shows more.  When the lower-cased query in
    the box occurs inside the lower-cased form of another query, the
    records shown for the other query are a sublist of those shown for
    the query in the box; for ASCII queries it is enough that the query
    itself occurs inside the other one. *)
Theorem longer_query_narrows (s : State) (q q' : string) :
  (substring (toLowerCase q) (toLowerCase q') ->
   filteredTasks (setSearchQuery q' s) `sublist_of` filteredTasks (setSearchQuery q s)) /\
  (Js.isAscii q' = true -> substring q q' ->
   filteredTasks (setSearchQuery q' s) `sublist_of` filteredTasks (setSearchQuery q s)).
Proof.
  assert (substring (toLowerCase q) (toLowerCase q') ->
          filteredTasks (setSearchQuery q' s)
          `sublist_of` filteredTasks (setSearchQuery q s)) as Hgen.
  { intros Hsub. unfold filteredTasks. apply filter_sublist_mono.
    intros t. rewrite !andb_true_iff. intros [Hs Hf]. split; [|exact Hf].
    apply matchesSearch_spec in Hs. apply matchesSearch_spec.
    cbn [setSearchQuery searchQuery] in *.
    destruct Hs as [Hs|Hs]; [left|right]; exact (substring_trans _ _ _ Hsub Hs). }
  split; [exact Hgen|].
  intros Hascii (pre & post & ->). apply Hgen.
  rewrite !isAscii_append, !andb_true_iff in Hascii. destruct Hascii as (Hpre & Hq & Hpost).
  rewrite (toLowerCase_ascii q Hq), toLowerCase_ascii
    by (rewrite !isAscii_append, Hpre, Hq, Hpost; reflexivity).
  exists (Js.asciiLowerCase pre), (Js.asciiLowerCase post).
  now rewrite !asciiLowerCase_append.
Qed.

(** ** The list area *)

Lemma ownProperty_own {A} (table : list (string * A)) (key : string) :
  (exists v, ownProperty table key = Some v) <-> In key (map fst table).
Proof.
  induction table as [|[k v] table IH]; simpl.
  - split; [intros [v H]; discriminate | contradiction].
  - destruct (k =? key)%string eqn:E.
    + apply String.eqb_eq in E. split; [now left | eauto].
    + apply String.eqb_neq in E. rewrite IH. split; [now right | intros [H|H]; tauto].
Qed.

Lemma oneOf_In (options : list string) (v : string) :
  oneOf options v = true <-> In v options.
Proof.
  unfold oneOf. rewrite existsb_exists. split.
  - intros (x & Hin & Heq). apply String.eqb_eq in Heq. now subst.
  - intros Hin. exists v. split; [exact Hin | apply String.eqb_refl].
Qed.

Lemma cardThrows_spec (task : Task.t) :
  cardThrows task = false <-> drawablePriority task.
Proof.
  unfold cardThrows, drawablePriority, undefinedIn.
  destruct (Task.priority task) as [|c p] eqn:Hp; cbn [Js.truthy].
  - split; [now left | reflexivity].
  - pose proof (ownProperty_own priorityConfig (String c p)) as Hown.
    destruct (ownProperty priorityConfig (String c p)) as [style|].
    + split; [intros _; right; left; apply Hown; eauto | reflexivity].
    + rewrite negb_false_iff, oneOf_In. split.
      * intros H. now right; right.
      * intros [H|[H|H]]; [discriminate | | exact H].
        apply Hown in H. destruct H as [v H]. discriminate.
Qed.

Lemma existsb_cardThrows (l : list Task.t) :
  (Forall drawablePriority l -> existsb cardThrows l = false) /\
  (Exists (fun task => ~ drawablePriority task) l -> existsb cardThrows l = true).
Proof.
  split.
  - induction 1 as [|t l Ht _ IH]; simpl; [reflexivity|].
    apply cardThrows_spec in Ht. now rewrite Ht, IH.
  - induction 1 as [t l Ht|t l _ IH]; simpl.
    + destruct (cardThrows t) eqn:E; [reflexivity|].
      apply cardThrows_spec in E. contradiction.
    + rewrite IH. apply orb_true_r.
Qed.

(** X18.  The list area tells the truth about an empty list.  It says
    'No tasks yet' only when the collection is empty and neither a query
    nor a status filter is set; a collection that has records but shows
    none says 'No tasks match your filters'.  When the visible subset is
    not empty, its cards are shown if every visible record has a priority
    a card can be drawn for (empty, a key of [priorityConfig], or a name
    inherited from [Object.prototype]); if some visible record has not,
    the render throws. *)
Theorem listView_empty_states (s : State) :
  (listView s = EmptyList "No tasks yet. Create your first one above!" ->
   tasks s = [] /\ searchQuery s = "" /\ filterStatus s = "all") /\
  (tasks s <> [] -> filteredTasks s = [] ->
   listView s = EmptyList "No tasks match your filters") /\
  (filteredTasks s <> [] ->
   (Forall drawablePriority (filteredTasks s) -> listView s = Cards (filteredTasks s)) /\
   (Exists (fun task => ~ drawablePriority task) (filteredTasks s) ->
    listView s = RenderThrows)).
Proof.
  unfold listView. split; [|split].
  - destruct (loading s && (length (tasks s) =? 0)%nat); [discriminate|].
    destruct (length (filteredTasks s) =? 0)%nat eqn:Hlen;
      [|destruct (existsb cardThrows (filteredTasks s)); discriminate].
    destruct (Js.truthy (searchQuery s) || negb (filterStatus s =? "all")%string) eqn:Hf;
      [discriminate|].
    intros _. apply orb_false_iff in Hf. destruct Hf as [Hq Hst].
    destruct (searchQuery s) eqn:Eq; [|discriminate].
    apply negb_false_iff, String.eqb_eq in Hst.
    split; [|split; [reflexivity | exact Hst]].
    apply Nat.eqb_eq in Hlen. apply length_zero_iff_nil in Hlen.
    rewrite <- Hlen. symmetry. now apply no_filter_shows_all_aux.
  - intros Hne Hnil. destruct (tasks s) as [|t l] eqn:Hts; [congruence|].
    rewrite andb_false_r, Hnil. simpl.
    destruct (Js.truthy (searchQuery s) || negb (filterStatus s =? "all")%string) eqn:Hf;
      [reflexivity|exfalso].
    apply orb_false_iff in Hf. destruct Hf as [Hq Hst].
    destruct (searchQuery s) eqn:Eq; [|discriminate].
    apply negb_false_iff, String.eqb_eq in Hst.
    rewrite (no_filter_shows_all_aux s Eq Hst), Hts in Hnil. discriminate.
  - intros Hne.
    assert (loading s && (length (tasks s) =? 0)%nat = false) as ->.
    { destruct (tasks s) as [|t' l'] eqn:Hts; [|apply andb_false_r].
      exfalso. apply Hne. unfold filteredTasks. now rewrite Hts. }
    assert ((length (filteredTasks s) =? 0)%nat = false) as ->.
    { destruct (filteredTasks s); [congruence | reflexivity]. }
    destruct (existsb_cardThrows (filteredTasks s)) as [Hok Hbad].
    split; intros H; [now rewrite (Hok H) | now rewrite (Hbad H)].
Qed.

(** ** States the page can reach *)

Lemma oneOf_spec (options : list string) (v : string) :
  oneOf options v = true <-> v ∈ options.
Proof.
  unfold oneOf. rewrite existsb_exists, list_elem_of_In. split.
  - intros (x & Hin & Heq). apply String.eqb_eq in Heq. now subst.
  - intros Hin. exists v. split; [exact Hin | apply String.eqb_refl].
Qed.

Lemma wellFormed_spec (s : State) :
  wellFormed s = true <->
  loading s = false /\ oneOf priorityOptions (priority s) = true /\
  oneOf filterOptions (filterStatus s) = true /\
  oneOf (map fst THEMES) (currentTheme s) = true.
Proof.
  unfold wellFormed. rewrite !andb_true_iff, negb_true_iff. tauto.
Qed.

Lemma create_wellFormed (s : State) (response : Response Task.t) :
  wellFormed s = true -> wellFormed (create s response) = true.
Proof.
  intros Hwf. unfold create.
  destruct (String.string_dec (Js.trim (title s)) "") as [Ht|Ht];
    [rewrite (addTask_trace_blank s response (or_introl Ht)); exact Hwf|].
  destruct (String.string_dec (Js.trim (description s)) "") as [Hd|Hd];
    [rewrite (addTask_trace_blank s response (or_intror Hd)); exact Hwf|].
  apply wellFormed_spec in Hwf. destruct Hwf as (Hl & Hp & Hf & Hth).
  apply wellFormed_spec.
  destruct (parsed response) as [newTask|] eqn:Hr.
  - destruct response as [|[] [u|]]; simpl in Hr; try discriminate.
    rewrite (addTask_trace_ok s u Ht Hd). repeat split; trivial.
  - destruct (addTask_trace_failed s response Ht Hd Hr) as [err ->].
    repeat split; trivial.
Qed.

Lemma step_wellFormed (s : State) (ev : Event) :
  wellFormed s = true -> enabled s ev = true -> wellFormed (step s ev) = true.
Proof.
  intros Hwf Hen. destruct ev; simpl step; try (now apply create_wellFormed);
    apply wellFormed_spec in Hwf; destruct Hwf as (Hl & Hp & Hf & Hth);
    apply wellFormed_spec; simpl in Hen.
  - repeat split; trivial.
  - apply andb_true_iff in Hen. destruct Hen as [_ Hv]. repeat split; trivial.
  - repeat split; trivial.
  - repeat split; trivial.
  - repeat split; trivial.
  - repeat split; trivial.
  - repeat split; trivial.
  - destruct response as [|[] [u|]]; repeat split; trivial.
  - destruct response as [|[] body]; repeat split; trivial.
Qed.

(** X19.  In every state the page can reach (the load on mount, then any
    events the rendered controls can produce, one at a time) no request
    is pending, the priority selection is one of the selector's options,
    the status filter is one of the three buttons' values, and the theme
    is a key of [THEMES]. *)
Theorem reachable_cells_in_range (s : State) :
  Reachable s ->
  loading s = false /\
  priority s ∈ priorityOptions /\
  filterStatus s ∈ filterOptions /\
  currentTheme s ∈ map fst THEMES.
Proof.
  intros Hreach.
  assert (wellFormed s = true) as Hwf.
  { induction Hreach as [response|s ev _ IH Hen].
    - destruct response as [|[] [data|]]; reflexivity.
    - now apply step_wellFormed. }
  apply wellFormed_spec in Hwf. rewrite <- !oneOf_spec. exact Hwf.
Qed.

(** X20.  When the theme is a key of [THEMES] the theme effect finds its
    entry and sets the two colour properties from it, and exactly one
    button of the theme switcher is drawn as selected; when the status
    filter is one of the three values exactly one filter button is. *)
Theorem one_button_selected (s : State) :
  (currentTheme s ∈ map fst THEMES ->
   (exists theme,
      ownProperty THEMES (currentTheme s) = Some theme /\
      themeEffect s = Some [ ("--theme-primary", primary theme);
                             ("--theme-secondary", secondary theme) ]) /\
   length (List.filter snd (themeButtons s)) = 1) /\
  (filterStatus s ∈ filterOptions ->
   length (List.filter snd (filterButtons s)) = 1).
Proof.
  unfold themeEffect, themeButtons, filterButtons. split; intros Hin.
  - simpl in Hin. rewrite !elem_of_cons in Hin.
    destruct Hin as [-> | [-> | [-> | Hin]]]; [| | |inversion Hin];
      (split; [eexists; split; reflexivity | reflexivity]).
  - unfold filterOptions in Hin. rewrite !elem_of_cons in Hin.
    destruct Hin as [-> | [-> | [-> | Hin]]]; [| | |inversion Hin]; reflexivity.
Qed.

Lemma one_button_selected_witness :
  let s := setCurrentTheme "fire" (setFilterStatus "completed" initialState) in
  themeEffect s = Some [("--theme-primary", "#ff0000"); ("--theme-secondary", "#cc0000")] /\
  length (List.filter snd (themeButtons s)) = 1 /\
  length (List.filter snd (filterButtons s)) = 1.
Proof.
  intros s.
  assert (currentTheme s ∈ map fst THEMES) as Ht by (apply oneOf_spec; reflexivity).
  assert (filterStatus s ∈ filterOptions) as Hf by (apply oneOf_spec; reflexivity).
  destruct (proj1 (one_button_selected s) Ht) as [(theme & Hown & Heff) Hone].
  split; [|split].
  - rewrite Heff. simpl in Hown. injection Hown as <-. reflexivity.
  - exact Hone.
  - exact (proj2 (one_button_selected s) Hf).
Defined.

(** ** Cards *)

(** X21.  [priorityConfig] has an own entry for the key a card looks up
    exactly when the record's priority is empty or one of the three
    options of the selector; an empty priority is drawn with the style of
    'medium'. *)
Theorem priorityStyle_found (task : Task.t) :
  ((exists style, priorityStyle task = Some style) <->
   Task.priority task = "" \/ Task.priority task ∈ priorityOptions) /\
  (Task.priority task = "" ->
   priorityStyle task = ownProperty priorityConfig "medium").
Proof.
  unfold priorityStyle, priorityOptions. split.
  - rewrite !elem_of_cons. split.
    + intros [style Hs]. destruct (Task.priority task) as [|c p] eqn:Hp; [now left|right].
      cbn [Js.truthy] in Hs. unfold priorityConfig, ownProperty in Hs.
      destruct ("high" =? String c p)%string eqn:E1;
        [apply String.eqb_eq in E1; rewrite <- E1; tauto|].
      destruct ("medium" =? String c p)%string eqn:E2;
        [apply String.eqb_eq in E2; rewrite <- E2; tauto|].
      destruct ("low" =? String c p)%string eqn:E3;
        [apply String.eqb_eq in E3; rewrite <- E3; tauto|].
      discriminate.
    + intros [-> | [-> | [-> | [-> | Hin]]]]; [| | | |inversion Hin];
        eexists; reflexivity.
  - intros ->. reflexivity.
Qed.

Lemma priorityStyle_found_witness :
  (exists style, priorityStyle (Task.mk 1 "A" "a" "low" false "t0") = Some style) /\
  priorityStyle (Task.mk 2 "B" "b" "" false "t1") = ownProperty priorityConfig "medium".
Proof.
  split.
  - apply (proj1 (priorityStyle_found (Task.mk 1 "A" "a" "low" false "t0"))).
    right. apply oneOf_spec. reflexivity.
  - apply (proj2 (priorityStyle_found (Task.mk 2 "B" "b" "" false "t1"))). reflexivity.
Defined.

Lemma existsb_id (id : Z) (l : list Task.t) :
  existsb (fun task => (Task.id task =? id)%Z) l = true ->
  Exists (fun task => Task.id task = id) l.
Proof.
  intros H. apply existsb_exists in H. destruct H as (t & Hin & Heq).
  apply Exists_exists. exists t. split; [now apply list_elem_of_In | now apply Z.eqb_eq].
Qed.

Lemma sublist_Exists {A} (P : A -> Prop) (k l : list A) :
  k `sublist_of` l -> Exists P k -> Exists P l.
Proof.
  induction 1 as [|x k l _ IH|x k l _ IH]; intros Hex.
  - exact Hex.
  - inversion Hex; subst; [now left | right; now apply IH].
  - right. now apply IH.
Qed.

Lemma enabled_click_id (s : State) (id : Z) :
  match listView s with
  | Cards visible => existsb (fun task => (Task.id task =? id)%Z) visible
  | _ => false
  end = true ->
  Exists (fun task => Task.id task = id) (tasks s).
Proof.
  unfold listView.
  destruct (loading s && (length (tasks s) =? 0)%nat); [discriminate|].
  destruct (length (filteredTasks s) =? 0)%nat; [discriminate|].
  destruct (existsb cardThrows (filteredTasks s)); [discriminate|].
  intros H. apply existsb_id in H.
  eapply sublist_Exists; [apply filter_sublist | exact H].
Qed.

Lemma replace_present (id : Z) (u : Task.t) (l : list Task.t) :
  Exists (fun task => Task.id task = id) l ->
  u ∈ map (fun task => if (Task.id task =? id)%Z then u else task) l.
Proof.
  induction 1 as [t l Ht|t l _ IH]; simpl.
  - apply Z.eqb_eq in Ht. rewrite Ht. left.
  - right. exact IH.
Qed.

Lemma remove_present_length (id : Z) (l : list Task.t) :
  Exists (fun task => Task.id task = id) l ->
  length (List.filter (fun task => negb (Task.id task =? id)%Z) l) < length l.
Proof.
  induction 1 as [t l Ht|t l _ IH]; simpl.
  - apply Z.eqb_eq in Ht. rewrite Ht. simpl.
    pose proof (sublist_length _ _
      (filter_sublist (fun task => negb (Task.id task =? id)%Z) l)). lia.
  - destruct (negb (Task.id t =? id)%Z); simpl; lia.
Qed.

(** X22.  A click on the checkbox or on the delete button of a card acts
    on a record of the collection: after a successful toggle the record
    the server sent is in the collection, and after a successful delete
    the collection is shorter. *)
Theorem card_click_hits_record (s : State) (id : Z)
    (rt : Response Task.t) (rd : Response unit) (u : Task.t) :
  (enabled s (ClickToggle id rt) = true -> parsed rt = Some u ->
   u ∈ tasks (step s (ClickToggle id rt))) /\
  (enabled s (ClickDelete id rd) = true -> accepted rd = true ->
   length (tasks (step s (ClickDelete id rd))) < length (tasks s)).
Proof.
  split; intros Hen Hr; simpl in Hen; apply enabled_click_id in Hen; simpl step.
  - rewrite (toggle_tasks_ok s id rt u Hr). simpl. now apply replace_present.
  - rewrite (delete_tasks_ok s id rd Hr). now apply remove_present_length.
Qed.

(** ** Counts and the server's answer to a toggle *)

Lemma count_after_replace (p : Task.t -> bool) (id : Z) (t u : Task.t) (l : list Task.t) :
  NoDup (map Task.id l) -> t ∈ l -> Task.id t = id ->
  p t = false -> p u = true ->
  length (List.filter p (map (fun task => if (Task.id task =? id)%Z then u else task) l))
  = S (length (List.filter p l)).
Proof.
  intros Hnd Hin Hid Hpt Hpu. induction l as [|x l IH]; [inversion Hin|].
  simpl in Hnd. apply NoDup_cons in Hnd. destruct Hnd as [Hx Hnd].
  simpl. destruct (Task.id x =? id)%Z eqn:E.
  - apply Z.eqb_eq in E.
    assert (Forall (fun task => Task.id task <> id) l) as Habs.
    { apply Forall_forall. intros y Hy Heq. apply Hx. rewrite E, <- Heq.
      now apply list_elem_of_fmap_2. }
    assert (x = t) as ->.
    { apply elem_of_cons in Hin. destruct Hin as [->|Hin]; [reflexivity|exfalso].
      rewrite Forall_forall in Habs. now apply (Habs t Hin). }
    rewrite (replace_absent id u l Habs), Hpu, Hpt. reflexivity.
  - apply Z.eqb_neq in E. apply elem_of_cons in Hin.
    destruct Hin as [->|Hin]; [contradiction|].
    specialize (IH Hnd Hin). destruct (p x); simpl; now rewrite IH.
Qed.

(** X23.  When ids are unique and the server answers a toggle with a
    record whose completed flag is the opposite of the record in the
    collection, one record moves between the two counts: toggling an
    active record adds one to completed and takes one from active, and
    toggling a completed record does the reverse. *)
Theorem toggle_moves_one_count (s : State) (id : Z) (response : Response Task.t)
    (t u : Task.t) :
  NoDup (map Task.id (tasks s)) ->
  t ∈ tasks s -> Task.id t = id ->
  parsed response = Some u ->
  Task.completed u = negb (Task.completed t) ->
  let before := stats s in
  let after := stats (toggle s id response) in
  if Task.completed t
  then Stats.active after = S (Stats.active before) /\
       S (Stats.completed after) = Stats.completed before
  else Stats.completed after = S (Stats.completed before) /\
       S (Stats.active after) = Stats.active before.
Proof.
  intros Hnd Hin Hid Hr Hflip before after. unfold before, after, stats.
  cbn [Stats.active Stats.completed].
  rewrite (toggle_tasks_ok s id response u Hr). cbn [applyEffect tasks].
  set (l' := map (fun task => if (Task.id task =? id)%Z then u else task) (tasks s)).
  pose proof (filter_length_split (fun x => Task.completed x) (tasks s)) as Hs.
  pose proof (filter_length_split (fun x => Task.completed x) l') as Hs'.
  assert (length l' = length (tasks s)) as Hlen by apply length_map.
  destruct (Task.completed t) eqn:Hc; simpl in Hflip.
  - pose proof (count_after_replace (fun x => negb (Task.completed x)) id t u (tasks s)
                  Hnd Hin Hid) as H.
    simpl in H. rewrite Hc, Hflip in H. specialize (H eq_refl eq_refl).
    fold l' in H. split; [exact H | lia].
  - pose proof (count_after_replace (fun x => Task.completed x) id t u (tasks s)
                  Hnd Hin Hid Hc Hflip) as H.
    fold l' in H. split; [exact H | lia].
Qed.

Lemma toggle_moves_one_count_witness :
  let a := Task.mk 1 "A" "a" "high" false "t0" in
  let b := Task.mk 2 "B" "b" "low" true "t1" in
  let a' := Task.mk 1 "A" "a" "high" true "t0" in
  let s := mkState [a; b] "" "" "medium" false "" "" "all" "classic" true in
  Stats.completed (stats (toggle s 1 (HttpResponse true (Some a')))) = 2 /\
  S (Stats.active (stats (toggle s 1 (HttpResponse true (Some a'))))) = 1.
Proof.
  intros a b a' s.
  apply (toggle_moves_one_count s 1 (HttpResponse true (Some a')) a a').
  - simpl. repeat constructor; rewrite ?list_elem_of_In; simpl; intuition discriminate.
  - left.
  - reflexivity.
  - reflexivity.
  - reflexivity.
Defined.

(** ** The completion percentage at its ends *)

Section Percentage.
Local Open Scope Z_scope.

(** A finite number divided by itself is one. *)
Lemma div_self (m : positive) (e : Z) :
  Number.div (S754_finite false m e) (S754_finite false m e) = Number.ofZ 1.
Proof.
  unfold Number.div, SFdiv, SFdiv_core_binary.
  rewrite !Z.sub_diag.
  change (Z.min (fexp Number.prec Number.emax 0) 0) with (-53).
  change (0 - -53) with 53. cbv iota.
  rewrite Z.shiftl_mul_pow2 by lia.
  assert (Z.div_eucl (Zpos m * 2 ^ 53) (Zpos m) = (2 ^ 53, 0)) as ->.
  { pose proof (Z.div_mul (2 ^ 53) (Zpos m) ltac:(lia)) as Hq.
    pose proof (Z.mod_mul (2 ^ 53) (Zpos m) ltac:(lia)) as Hr.
    rewrite (Z.mul_comm (2 ^ 53)) in Hq, Hr. unfold Z.div, Z.modulo in Hq, Hr.
    destruct (Z.div_eucl (Zpos m * 2 ^ 53) (Zpos m)) as [q r].
    cbn [fst snd] in Hq, Hr. now rewrite Hq, Hr. }
  unfold new_location, new_location_even, new_location_odd.
  destruct (Z.even (Zpos m)); reflexivity.
Qed.

Lemma percentage_all_done (n : Z) :
  0 < n < 2 ^ 53 ->
  Number.round
    (Number.mul (Number.div (Number.ofZ n) (Number.ofZ n)) (Number.ofZ 100))
  = Number.ofZ 100.
Proof.
  intros Hn. destruct (ofZ_pos n Hn) as (m & e & -> & _).
  rewrite div_self. reflexivity.
Qed.

Lemma percentage_none_done (n : Z) :
  0 < n < 2 ^ 53 ->
  Number.round
    (Number.mul (Number.div (Number.ofZ 0) (Number.ofZ n)) (Number.ofZ 100))
  = Number.ofZ 0.
Proof.
  intros Hn. destruct (ofZ_pos n Hn) as (m & e & -> & _). reflexivity.
Qed.

End Percentage.

Lemma filter_none {A} (f : A -> bool) (l : list A) :
  Forall (fun x => f x = false) l -> List.filter f l = [].
Proof.
  induction 1 as [|x l Hx _ IH]; simpl; [reflexivity|]. now rewrite Hx.
Qed.

(** X24.  For a collection of fewer than [2^53] records the percentage is
    exactly 100 when the collection is not empty and every record is
    completed, and exactly 0 when no record is completed. *)
Theorem completionPercentage_ends (s : State) :
  (Z.of_nat (length (tasks s)) < 2 ^ 53)%Z ->
  (tasks s <> [] -> Forall (fun t => Task.completed t = true) (tasks s) ->
   completionPercentage s = Number.ofNat 100) /\
  (Forall (fun t => Task.completed t = false) (tasks s) ->
   completionPercentage s = Number.ofNat 0).
Proof.
  intros Hlen. unfold completionPercentage. cbn [stats Stats.total Stats.completed].
  split.
  - intros Hne Hall. rewrite (filter_fixed (fun t => Task.completed t) _ Hall).
    destruct (tasks s) as [|t l]; [congruence|].
    change (0 <? length (t :: l))%nat with true. cbv iota.
    apply percentage_all_done. split; [simpl length; lia | exact Hlen].
  - intros Hnone.
    rewrite (filter_none (fun t => Task.completed t) _ Hnone).
    destruct (tasks s) as [|t l]; [reflexivity|].
    change (0 <? length (t :: l))%nat with true. cbv iota.
    apply (percentage_none_done (Z.of_nat (length (t :: l)))).
    split; [simpl length; lia | exact Hlen].
Qed.

Lemma completionPercentage_ends_witness :
  completionPercentage (sample 3 0) = Number.ofNat 100 /\
  completionPercentage (sample 0 3) = Number.ofNat 0.
Proof.
  split.
  - apply (proj1 (completionPercentage_ends (sample 3 0) eq_refl)).
    + discriminate.
    + repeat constructor.
  - apply (proj2 (completionPercentage_ends (sample 0 3) eq_refl)).
    repeat constructor.
Defined.

(** ** The blank check, in terms of characters *)

(** X25.  The create handler sends no request exactly when the title or
    the description is empty or made only of the characters that
    [String.prototype.trim] removes (the WhiteSpace and LineTerminator
    code points of ECMA-262, among them the no-break space); in every
    other case it sends the POST, whatever the response turns out to be. *)
Theorem addTask_rejects_exactly_blank (s : State) (response : Response Task.t) :
  requests (trace (addTask s response)) = [] <->
  Blank (title s) \/ Blank (description s).
Proof.
  rewrite <- !trim_empty_iff. split.
  - intros Hreq.
    destruct (String.string_dec (Js.trim (title s)) "") as [Ht|Ht]; [now left|].
    destruct (String.string_dec (Js.trim (description s)) "") as [Hd|Hd]; [now right|].
    exfalso. unfold addTask in Hreq. rewrite (addTask_guard_passed s Ht Hd) in Hreq.
    destruct response as [|[] [u|]]; discriminate.
  - intros H. now rewrite (addTask_trace_blank s response H).
Qed.

Lemma addTask_rejects_exactly_blank_witness :
  let s := mkState [] "Buy milk" (Js.utf8 0x09 ++ Js.utf8 0xA0) "low" false ""
                   "" "all" "classic" true in
  requests (trace (addTask s NetworkError)) = [].
Proof.
  intros s. apply (proj2 (addTask_rejects_exactly_blank s NetworkError)).
  right. apply (Blank_more (Js.utf8 0x09) (Js.utf8 0xA0)).
  - vm_compute. tauto.
  - apply (Blank_more (Js.utf8 0xA0) ""); [vm_compute; tauto | constructor].
Defined.

End Engine.

(* ================================================================== *)
(** * The properties at a concrete case mapping

    The ASCII mapping has the two properties asked of [toLowerCase]; the
    statements that depend on the case mapping are exercised with it. *)

Lemma asciiLowerCase_ascii (s : string) :
  Js.isAscii s = true -> Js.asciiLowerCase s = Js.asciiLowerCase s.
Proof. reflexivity. Qed.

Lemma filteredTasks_exact_witness :
  let ta := Task.mk 1 "Alpha" "" "high" false "t0" in
  let tb := Task.mk 2 "Beta" "" "low" false "t1" in
  let s := mkState [ta; tb] "" "" "medium" false "" "a" "all" "classic" true in
  let s2 := mkState [ta; tb] "" "" "medium" false "" "BETA" "all" "classic" true in
  let s' := mkState [ta; tb] "" "" "medium" false "" "" "completed" "classic" true in
  filteredTasks Js.asciiLowerCase s = [ta; tb] /\
  filteredTasks Js.asciiLowerCase s2 = [tb] /\
  (tb ∈ filteredTasks Js.asciiLowerCase s2 <->
   tb ∈ tasks s2 /\
   (substring "beta" "beta" \/ substring "beta" "") /\ statusAdmits "all" tb) /\
  filteredTasks Js.asciiLowerCase s' = [].
Proof.
  intros ta tb s s2 s'.
  destruct (filteredTasks_exact Js.asciiLowerCase asciiLowerCase_ascii s)
    as (_ & _ & _ & _ & Ha & _ & _).
  destruct (filteredTasks_exact Js.asciiLowerCase asciiLowerCase_ascii s2)
    as (_ & _ & _ & Hascii & _ & Hb & _).
  destruct (filteredTasks_exact Js.asciiLowerCase asciiLowerCase_ascii s')
    as (_ & _ & _ & _ & _ & _ & Hc).
  split; [|split; [|split]].
  - apply (Ha ta tb); reflexivity.
  - apply (Hb ta tb); reflexivity.
  - apply (Hascii tb); reflexivity.
  - apply Hc; [reflexivity | repeat constructor].
Defined.

Lemma empty_query_shows_by_status_witness :
  let a := Task.mk 1 "Alpha" "" "high" false "t0" in
  let b := Task.mk 2 "" "x" "low" true "t1" in
  filteredTasks Js.asciiLowerCase
    (mkState [a; b] "" "" "medium" false "" "" "all" "classic" true) = [a; b] /\
  filteredTasks Js.asciiLowerCase
    (mkState [a; b] "" "" "medium" false "" "" "active" "classic" true) = [a].
Proof.
  intros a b. split.
  - apply (proj1 (empty_query_shows_by_status Js.asciiLowerCase asciiLowerCase_ascii
                    (mkState [a; b] "" "" "medium" false "" "" "all" "classic" true)
                    eq_refl)).
    reflexivity.
  - apply (proj1 (proj2 (empty_query_shows_by_status Js.asciiLowerCase asciiLowerCase_ascii
                    (mkState [a; b] "" "" "medium" false "" "" "active" "classic" true)
                    eq_refl))).
    reflexivity.
Defined.

Lemma status_filter_counts_witness :
  let a := Task.mk 1 "Alpha" "" "high" false "t0" in
  let b := Task.mk 2 "Beta" "x" "low" true "t1" in
  let s := mkState [a; b; a] "" "" "medium" false "" "" "completed" "classic" true in
  length (filteredTasks Js.asciiLowerCase (setFilterStatus "active" s))
  = Stats.active (stats s) /\
  length (filteredTasks Js.asciiLowerCase (setFilterStatus "completed" s))
  = Stats.completed (stats s).
Proof.
  intros a b s.
  apply (proj1 (proj2 (status_filter_counts Js.asciiLowerCase asciiLowerCase_ascii s))).
  reflexivity.
Defined.

Lemma search_ignores_query_case_witness :
  let a := Task.mk 1 "Alpha" "" "high" false "t0" in
  let b := Task.mk 2 "Beta" "x" "low" true "t1" in
  let s := mkState [a; b] "" "" "medium" false "" "" "all" "classic" true in
  filteredTasks Js.asciiLowerCase (setSearchQuery "ALPHA" s)
  = filteredTasks Js.asciiLowerCase (setSearchQuery "alpha" s).
Proof.
  intros a b s.
  apply (proj1 (search_ignores_query_case Js.asciiLowerCase asciiLowerCase_idempotent
                  s "ALPHA" "alpha")).
  reflexivity.
Defined.

Lemma longer_query_narrows_witness :
  let a := Task.mk 1 "Alpha" "" "high" false "t0" in
  let b := Task.mk 2 "Beta" "x" "low" true "t1" in
  let s := mkState [a; b] "" "" "medium" false "" "" "all" "classic" true in
  filteredTasks Js.asciiLowerCase (setSearchQuery "ALP" s)
  `sublist_of` filteredTasks Js.asciiLowerCase (setSearchQuery "A" s).
Proof.
  intros a b s.
  apply (proj2 (longer_query_narrows Js.asciiLowerCase asciiLowerCase_ascii s "A" "ALP")).
  - reflexivity.
  - now exists "", "LP".
Defined.

Lemma listView_empty_states_witness :
  let a := Task.mk 1 "Alpha" "" "high" false "t0" in
  let u := Task.mk 2 "Beta" "" "urgent" false "t1" in
  let s := mkState [a; u] "" "" "medium" false "" "zzz" "all" "classic" true in
  tasks initialState = [] /\
  listView Js.asciiLowerCase s = EmptyList "No tasks match your filters" /\
  listView Js.asciiLowerCase (setSearchQuery "al" s) = Cards [a] /\
  listView Js.asciiLowerCase (setSearchQuery "" s) = RenderThrows.
Proof.
  intros a u s. split; [|split; [|split]].
  - apply (proj1 (listView_empty_states Js.asciiLowerCase asciiLowerCase_ascii
                    initialState)).
    reflexivity.
  - apply (proj1 (proj2 (listView_empty_states Js.asciiLowerCase asciiLowerCase_ascii s)));
      [discriminate | reflexivity].
  - apply (proj1 (proj2 (proj2 (listView_empty_states Js.asciiLowerCase
                                   asciiLowerCase_ascii (setSearchQuery "al" s)))
                    ltac:(discriminate))).
    constructor; [right; left; simpl; tauto | constructor].
  - apply (proj2 (proj2 (proj2 (listView_empty_states Js.asciiLowerCase
                                   asciiLowerCase_ascii (setSearchQuery "" s)))
                    ltac:(discriminate))).
    apply Exists_cons_tl, Exists_cons_hd. unfold drawablePriority. simpl.
    intros [H|[H|H]]; [discriminate | |];
      repeat (destruct H as [H|H]; [discriminate|]); exact H.
Defined.

Lemma reachable_cells_in_range_witness :
  let s := step (step (load initialState NetworkError) (ClickFilter "active"))
                (Submit (HttpResponse false None)) in
  loading s = false /\
  priority s ∈ priorityOptions /\
  filterStatus s ∈ filterOptions /\
  currentTheme s ∈ map fst THEMES.
Proof.
  intros s. apply (reachable_cells_in_range Js.asciiLowerCase s).
  apply reach_step; [apply reach_step; [apply reach_mount|]|]; reflexivity.
Defined.

Lemma card_click_hits_record_witness :
  let a := Task.mk 1 "Alpha" "" "high" false "t0" in
  let a' := Task.mk 1 "Alpha" "" "high" true "t0" in
  let s := mkState [a] "" "" "medium" false "" "al" "active" "classic" true in
  a' ∈ tasks (step s (ClickToggle 1 (HttpResponse true (Some a')))) /\
  length (tasks (step s (ClickDelete 1 (HttpResponse true (Some tt))))) < 1.
Proof.
  intros a a' s. split.
  - apply (proj1 (card_click_hits_record Js.asciiLowerCase s 1
                    (HttpResponse true (Some a')) NetworkError a'));
      reflexivity.
  - apply (proj2 (card_click_hits_record Js.asciiLowerCase s 1 NetworkError
                    (HttpResponse true (Some tt)) a));
      reflexivity.
Defined.
